(** * Verification of the triage pass of Centro de Mando (scripts: Jarvis triage cron)

    Shallow embedding of the triage script: the JavaScript string helpers it
    relies on, the classifier ([inferAgentBucket], [needsNico]), the plan
    builder ([buildSubtasks]), the roster resolver ([pickId]), and the
    coordinator ([main]) over an explicit model of the record store.

    JavaScript strings are modelled as Rocq [string]s whose characters are
    UTF-16 code units restricted to the Latin-1 range (0..255). *)

From Stdlib Require Import Arith Bool List Lia Ascii String.
From Stdlib Require Import Sorted Permutation DecimalString.
Import ListNotations.
Open Scope bool_scope.
Open Scope string_scope.
Open Scope nat_scope.

(* ------------------------------------------------------------------ *)
(** ** JavaScript string primitives *)

Module JS.

(** Code-unit value of a character. *)
Definition code (c : ascii) : nat := nat_of_ascii c.

(** [WhiteSpace] and [LineTerminator] code units of ECMAScript that lie in the
    Latin-1 range: TAB, LF, VT, FF, CR, SPACE and NO-BREAK SPACE. *)
Definition is_space (c : ascii) : bool :=
  let n := code c in
  ((9 <=? n) && (n <=? 13)) || (n =? 32) || (n =? 160).

Fixpoint trim_start (s : string) : string :=
  match s with
  | EmptyString => EmptyString
  | String c s' => if is_space c then trim_start s' else s
  end.

Fixpoint trim_end (s : string) : string :=
  match s with
  | EmptyString => EmptyString
  | String c s' =>
      match trim_end s' with
      | EmptyString => if is_space c then EmptyString else String c EmptyString
      | r => String c r
      end
  end.

(** [String.prototype.trim]. *)
Definition trim (s : string) : string := trim_end (trim_start s).

(** [toLowerCase] on one Latin-1 code unit: A-Z and U+00C0..U+00DE except
    U+00D7 are shifted by 0x20, every other Latin-1 code unit is its own
    lower case. Strings here hold Latin-1 code units only; outside that
    range the real [toLowerCase] can change the length of a string
    (U+0130 becomes two code units), which this model does not cover. *)
Definition lower_char (c : ascii) : ascii :=
  let n := code c in
  if ((65 <=? n) && (n <=? 90)) || ((192 <=? n) && (n <=? 222) && negb (n =? 215))
  then ascii_of_nat (n + 32) else c.

Fixpoint toLowerCase (s : string) : string :=
  match s with
  | EmptyString => EmptyString
  | String c s' => String (lower_char c) (toLowerCase s')
  end.

(** [String.prototype.includes]: some suffix of [t] starts with [w]. *)
Fixpoint includes (t w : string) : bool :=
  prefix w t ||
  match t with
  | EmptyString => false
  | String _ t' => includes t' w
  end.

(** Regular-expression character class [\w] = [A-Za-z0-9_]. *)
Definition is_word_char (c : ascii) : bool :=
  let n := code c in
  ((48 <=? n) && (n <=? 57)) || ((65 <=? n) && (n <=? 90))
  || ((97 <=? n) && (n <=? 122)) || (n =? 95).

(** Case folding used by a non-unicode [/i] regular expression when the
    pattern character is an ASCII lower-case letter: only A-Z fold onto a-z
    (a non-ASCII unit never canonicalises to an ASCII one). *)
Definition ascii_fold (c : ascii) : ascii :=
  let n := code c in
  if (65 <=? n) && (n <=? 90) then ascii_of_nat (n + 32) else c.

End JS.

(* ------------------------------------------------------------------ *)
(** ** Classifier: [normalizeText], [inferAgentBucket], [needsNico] *)

(** [normalizeText(s) = (s || '').toString().trim()]; [None] is a
    null or undefined field. *)
Definition normalizeText (s : option string) : string :=
  match s with
  | Some x => JS.trim x
  | None => EmptyString
  end.

(** Latin-1 small o with acute accent, as in "código". *)
Definition o_acute : ascii := ascii_of_nat 243.

Definition kw_codigo : string := String "c" (String o_acute "digo").
Definition kw_documentacion : string :=
  "documentaci" ++ String o_acute "n".

Definition newline : string := String (ascii_of_nat 10) EmptyString.

Definition inferAgentBucket (title description : option string) : string :=
  let t := JS.toLowerCase (normalizeText title ++ newline ++ normalizeText description) in
  let has := fun words => existsb (fun w => JS.includes t w) words in
  if has ["skool"; "comunidad"; "curso"; "miembros"; "post"; "contenido"] then "Skool"
  else if has ["deploy"; "infra"; "servidor"; "gateway"; "cron"; "ssh"; "dns";
               "docker"; "uptime"; "monitor"] then "Ops"
  else if has ["bug"; "error"; "fix"; "api"; "next"; "frontend"; "backend";
               "supabase"; "sql"; "typescript"; "codigo"; kw_codigo] then "Dev"
  else if has ["investigar"; "research"; "benchmark"; "comparar"; "alternativa";
               kw_documentacion; "docs"] then "Research"
  else "Jarvis".

(** The regular expression [/^\W*(idea|ayuda|pendiente|hacer|tbd|todo)\W*$/i]
    run by [RegExp.prototype.test], as a backtracking matcher in
    continuation-passing style. *)
Definition filler_words : list string :=
  ["idea"; "ayuda"; "pendiente"; "hacer"; "tbd"; "todo"].

(** [\W*] (greedy): consume one more non-word unit first, else continue. *)
Fixpoint re_star_nonword (k : string -> bool) (s : string) : bool :=
  match s with
  | EmptyString => k s
  | String c s' => (negb (JS.is_word_char c) && re_star_nonword k s') || k s
  end.

(** One literal of the alternation under [/i]. *)
Fixpoint re_literal_ci (w s : string) : option string :=
  match w with
  | EmptyString => Some s
  | String p w' =>
      match s with
      | EmptyString => None
      | String c s' =>
          if Ascii.eqb (JS.ascii_fold c) p then re_literal_ci w' s' else None
      end
  end.

Definition re_alt_ci (ws : list string) (k : string -> bool) (s : string) : bool :=
  existsb (fun w => match re_literal_ci w s with
                    | Some r => k r
                    | None => false
                    end) ws.

(** [$] without the multiline flag. *)
Definition re_end (s : string) : bool :=
  match s with EmptyString => true | _ => false end.

(** [^] anchors the match at position 0, so [test] tries only there. *)
Definition filler_re_test (s : string) : bool :=
  re_star_nonword (re_alt_ci filler_words (re_star_nonword re_end)) s.

(** The task row as the script selects it:
    [id,title,description,status,created_at,owner_id]. *)
Inductive Status :=
  | inbox | triage | in_progress | blocked | review | needs_nico | done | canceled.

Definition Status_eqb (a b : Status) : bool :=
  match a, b with
  | inbox, inbox | triage, triage | in_progress, in_progress
  | blocked, blocked | review, review | needs_nico, needs_nico
  | done, done | canceled, canceled => true
  | _, _ => false
  end.

Record Task := mkTask {
  task_id : nat;
  title : option string;
  description : option string;
  status : Status;
  created_at : nat;
  owner_id : nat
}.

Definition needsNico (task : Task) : bool :=
  let title := normalizeText (title task) in
  let desc := normalizeText (description task) in
  let tooVague := (String.length title <? 8) || filler_re_test title in
  let noDesc := String.length desc =? 0 in
  tooVague && noDesc.

(** Specification side of the filler-word pattern, in the words of the
    spec: the title is a denylisted word, compared case-insensitively,
    possibly surrounded by non-word characters. *)
Fixpoint str_forall (f : ascii -> bool) (s : string) : bool :=
  match s with
  | EmptyString => true
  | String c s' => f c && str_forall f s'
  end.

Fixpoint fold_str (s : string) : string :=
  match s with
  | EmptyString => EmptyString
  | String c s' => String (JS.ascii_fold c) (fold_str s')
  end.

Definition nonword (s : string) : bool :=
  str_forall (fun c => negb (JS.is_word_char c)) s.

Definition filler_pattern (s : string) : Prop :=
  exists pre mid suf w,
    s = pre ++ mid ++ suf /\ nonword pre = true /\ nonword suf = true
    /\ In w filler_words /\ fold_str mid = w.

(** Specification side of the bucket inference: an ordered table of
    (keyword set, bucket) rules, first match wins. *)
Definition agent_rules : list (list string * string) :=
  [ (["skool"; "comunidad"; "curso"; "miembros"; "post"; "contenido"], "Skool");
    (["deploy"; "infra"; "servidor"; "gateway"; "cron"; "ssh"; "dns";
      "docker"; "uptime"; "monitor"], "Ops");
    (["bug"; "error"; "fix"; "api"; "next"; "frontend"; "backend";
      "supabase"; "sql"; "typescript"; "codigo"; kw_codigo], "Dev");
    (["investigar"; "research"; "benchmark"; "comparar"; "alternativa";
      kw_documentacion; "docs"], "Research") ].

Definition default_bucket : string := "Jarvis".

Fixpoint first_match (rules : list (list string * string)) (t : string) : string :=
  match rules with
  | [] => default_bucket
  | (kws, b) :: rest =>
      if existsb (JS.includes t) kws then b else first_match rest t
  end.

(* ------------------------------------------------------------------ *)
(** ** Plan builder: [buildSubtasks] *)

(** Step descriptor [{ title, definition_of_done, bucket }]. The texts are
    kept as in the source (UTF-8 in the literals); they are only stored. *)
Record Step := mkStep {
  step_title : string;
  definition_of_done : string;
  step_bucket : string
}.

Definition step_clarify : Step := mkStep
  "Aclarar alcance y criterios"
  "Queda escrito en la tarea: objetivo, entradas necesarias, restricciones, y criterio de éxito verificable (qué se considera “hecho”)."
  "Jarvis".

Definition step_research : Step := mkStep
  "Investigación rápida (3 fuentes)"
  "Entrega un resumen de 10-15 líneas + 3 links relevantes + recomendación clara (qué hacer / qué no hacer) con pros y contras."
  "Research".

Definition step_skool : Step := mkStep
  "Diseñar pieza / acción para Skool"
  "Queda un borrador listo para publicar (texto final) + checklist de publicación (dónde, cuándo, CTA)."
  "Skool".

Definition step_dev : Step := mkStep
  "Implementación técnica"
  "PR/commit listo o cambios aplicados: incluye qué se cambió, cómo probarlo y evidencia (captura/log) de que pasa."
  "Dev".

Definition step_ops : Step := mkStep
  "Ejecución/operación"
  "Cambio aplicado en entorno correspondiente + verificación (comando/screenshot/log) + rollback plan documentado."
  "Ops".

Definition step_validate : Step := mkStep
  "Validación final"
  "Checklist de verificación completado y nota final en la tarea confirmando que el objetivo se cumplió."
  "Jarvis".

Definition push_if (b : bool) (x : Step) : list Step := if b then [x] else [].

(** The sequence of [subtasks.push] calls, before the cap. *)
Definition plan_pushes (bucket : string) : list Step :=
  (step_clarify
   :: push_if (String.eqb bucket "Research") step_research
   ++ push_if (String.eqb bucket "Skool") step_skool
   ++ push_if (String.eqb bucket "Dev") step_dev
   ++ push_if (String.eqb bucket "Ops") step_ops
   ++ [step_validate])%list.

(** [subtasks.slice(0, 7)]. *)
Definition buildSubtasks (task : Task) : list Step :=
  let bucket := inferAgentBucket (title task) (description task) in
  firstn 7 (plan_pushes bucket).

Definition last_step (l : list Step) : option Step := hd_error (rev l).

(* ------------------------------------------------------------------ *)
(** ** Roster: [getAgentRoster] and [pickId] *)

(** Row of the [agents] relation as selected: [id,name,role,is_active],
    plus the owner used by the filter. Identities are uuid primary keys,
    hence never empty: [a?.id] is truthy whenever [a] exists. *)
Record Agent := mkAgent {
  agent_id : nat;
  agent_name : option string;
  agent_owner : nat;
  is_active : bool
}.

(** A JavaScript [Map] with string keys, in insertion order:
    [set] on an existing key replaces its value in place. *)
Definition Roster := list (string * Agent).

Fixpoint map_set (k : string) (v : Agent) (m : Roster) : Roster :=
  match m with
  | [] => [(k, v)]
  | (k', v') :: m' => if String.eqb k k' then (k', v) :: m' else (k', v') :: map_set k v m'
  end.

Fixpoint map_get (k : string) (m : Roster) : option Agent :=
  match m with
  | [] => None
  | (k', v) :: m' => if String.eqb k k' then Some v else map_get k m'
  end.

(** [(a.name || '').toLowerCase()] *)
Definition roster_key (a : Agent) : string :=
  JS.toLowerCase (match agent_name a with Some n => n | None => "" end).

(** [for (const a of data || []) map.set(key(a), a)] *)
Definition build_roster (data : list Agent) : Roster :=
  fold_left (fun m a => map_set (roster_key a) a m) data [].

(** [jarvisAgent?.id || null] *)
Definition jarvis_id (roster : Roster) : option nat :=
  option_map agent_id (map_get "jarvis" roster).

(** [pickId]: [roster.get((bucket || '').toLowerCase())?.id || jarvisId || null] *)
Definition pickId (roster : Roster) (jarvisId : option nat) (bucket : option string)
  : option nat :=
  let key := JS.toLowerCase (match bucket with Some b => b | None => "" end) in
  match map_get key roster with
  | Some a => Some (agent_id a)
  | None => jarvisId
  end.

(* ------------------------------------------------------------------ *)
(** ** The record store *)

Record SubtaskRow := mkSubtaskRow {
  st_owner : nat;
  st_task : nat;
  st_title : string;
  st_status : Status;
  st_assignee : option nat;
  st_dod : string;
  st_sort : nat;
  st_bucket : string   (* metadata.triage_bucket *)
}.

Record CommentRow := mkCommentRow {
  c_owner : nat;
  c_task : nat;
  c_author_type : string;
  c_author : option nat;
  c_body : string
}.

(** The [data] payload of an activity entry. *)
Inductive ActData :=
  | data_created (n : nat)
  | data_kind (k : string)
  | data_move (from to : Status).

Record ActivityRow := mkActivityRow {
  a_owner : nat;
  a_actor_type : string;
  a_actor : option nat;
  a_action : string;
  a_entity_type : string;
  a_entity : nat;
  a_data : ActData
}.

(** The relations the script touches, plus the number of store round-trips
    made so far. *)
Record Store := mkStore {
  tasks : list Task;
  subtasks : list SubtaskRow;
  comments : list CommentRow;
  activity : list ActivityRow;
  agents : list Agent;
  calls : nat
}.

(** Configuration: [CENTRO_OWNER_ID], and which round-trip fails, with the
    error message the client returns for it. *)
Record Env := mkEnv {
  OWNER_ID : nat;
  fault : nat -> option string
}.

Definition with_tasks (ts : list Task) (s : Store) : Store :=
  mkStore ts (subtasks s) (comments s) (activity s) (agents s) (calls s).
Definition add_subtasks (rs : list SubtaskRow) (s : Store) : Store :=
  mkStore (tasks s) (subtasks s ++ rs)%list (comments s) (activity s) (agents s) (calls s).
Definition add_comment (c : CommentRow) (s : Store) : Store :=
  mkStore (tasks s) (subtasks s) (comments s ++ [c])%list (activity s) (agents s) (calls s).
Definition add_activity (a : ActivityRow) (s : Store) : Store :=
  mkStore (tasks s) (subtasks s) (comments s) (activity s ++ [a])%list (agents s) (calls s).
Definition tick (s : Store) : Store :=
  mkStore (tasks s) (subtasks s) (comments s) (activity s) (agents s) (S (calls s)).

(** A small state and error monad: every store call may return [{ error }],
    which the script turns into a thrown exception. *)
Inductive Result (A : Type) : Type :=
  | Ok (a : A)
  | Err (msg : string).
Arguments Ok {A} a.
Arguments Err {A} msg.

Definition M (A : Type) : Type := Store -> Result A * Store.

Definition ret {A} (a : A) : M A := fun s => (Ok a, s).

Definition bind {A B} (m : M A) (k : A -> M B) : M B :=
  fun s => match m s with
           | (Ok a, s1) => k a s1
           | (Err e, s1) => (Err e, s1)
           end.

Notation "x <- m ;; k" := (bind m (fun x => k))
  (at level 61, m at next level, right associativity).

(** One round-trip: it is counted; if it fails nothing is written and the
    error is thrown ([if (error) throw error]). *)
Definition store_call {A} (env : Env) (op : Store -> A * Store) : M A :=
  fun s =>
    let s1 := tick s in
    match fault env (calls s) with
    | Some e => (Err e, s1)
    | None => let (a, s2) := op s1 in (Ok a, s2)
    end.

(** [.from('agents').select(...).eq('owner_id', ownerId).eq('is_active', true)] *)
Definition op_select_agents (env : Env) (s : Store) : list Agent * Store :=
  (filter (fun a => (agent_owner a =? OWNER_ID env) && is_active a) (agents s), s).

Definition getAgentRoster (env : Env) : M Roster :=
  data <- store_call env (op_select_agents env) ;;
  ret (build_roster data).

(** [.order('created_at', { ascending: true })]: an insertion sort on
    [created_at]; rows with equal timestamps keep their table order. *)
Fixpoint insert_by_created (t : Task) (l : list Task) : list Task :=
  match l with
  | [] => [t]
  | x :: l' => if created_at t <=? created_at x then t :: l else x :: insert_by_created t l'
  end.

Fixpoint sort_by_created (l : list Task) : list Task :=
  match l with
  | [] => []
  | t :: l' => insert_by_created t (sort_by_created l')
  end.

Definition inbox_filter (env : Env) (t : Task) : bool :=
  (owner_id t =? OWNER_ID env) && Status_eqb (status t) inbox.

(** [.from('tasks').select(...).eq('owner_id', OWNER_ID).eq('status', 'inbox')
     .order('created_at', { ascending: true }).limit(20)] *)
Definition select_inbox (env : Env) (ts : list Task) : list Task :=
  firstn 20 (sort_by_created (filter (inbox_filter env) ts)).

Definition op_select_inbox (env : Env) (s : Store) : list Task * Store :=
  (select_inbox env (tasks s), s).

(** [.from('subtasks').select('id').eq('owner_id', OWNER_ID).eq('task_id', id).limit(1)] *)
Definition op_select_subtasks (env : Env) (tid : nat) (s : Store) : list SubtaskRow * Store :=
  (firstn 1 (filter (fun r => (st_owner r =? OWNER_ID env) && (st_task r =? tid)) (subtasks s)), s).

(** [.from('subtasks').insert(rows).select('id')]: the inserted rows. *)
Definition op_insert_subtasks (rows : list SubtaskRow) (s : Store) : list SubtaskRow * Store :=
  (rows, add_subtasks rows s).

Definition op_insert_comment (c : CommentRow) (s : Store) : unit * Store :=
  (tt, add_comment c s).

Definition op_insert_activity (a : ActivityRow) (s : Store) : unit * Store :=
  (tt, add_activity a s).

(** The conditional write [.update({ status }).eq('owner_id', OWNER_ID)
    .eq('id', id).eq('status', 'inbox')]; it returns the rows affected. *)
Definition cas_match (env : Env) (tid : nat) (t : Task) : bool :=
  (owner_id t =? OWNER_ID env) && (task_id t =? tid) && Status_eqb (status t) inbox.

Definition set_status (st : Status) (t : Task) : Task :=
  mkTask (task_id t) (title t) (description t) st (created_at t) (owner_id t).

Definition update_status (env : Env) (tid : nat) (st : Status) (ts : list Task) : list Task :=
  map (fun t => if cas_match env tid t then set_status st t else t) ts.

Definition op_update_status (env : Env) (tid : nat) (st : Status) (s : Store) : nat * Store :=
  (List.length (filter (cas_match env tid) (tasks s)),
   with_tasks (update_status env tid st (tasks s)) s).

Definition insertActivity (env : Env) (a : ActivityRow) : M unit :=
  store_call env (op_insert_activity a).

(* ------------------------------------------------------------------ *)
(** ** Coordinator: [main] *)

Fixpoint mapi_from {A B} (f : nat -> A -> B) (i : nat) (l : list A) : list B :=
  match l with
  | [] => []
  | x :: l' => f i x :: mapi_from f (S i) l'
  end.

(** [plan.map((p, idx) => ({ ... }))] *)
Definition make_row (env : Env) (roster : Roster) (jarvisId : option nat) (task : Task)
  (idx : nat) (p : Step) : SubtaskRow :=
  mkSubtaskRow (OWNER_ID env) (task_id task) (step_title p) in_progress
    (pickId roster jarvisId (Some (step_bucket p))) (definition_of_done p) idx
    (step_bucket p).

Definition make_rows (env : Env) (roster : Roster) (jarvisId : option nat) (task : Task)
  (plan : list Step) : list SubtaskRow :=
  mapi_from (make_row env roster jarvisId task) 0 plan.

(** The generated summary comment. *)
Definition commentBody (task : Task) (needs : bool) : string :=
  let d := normalizeText (description task) in
  let resumen :=
    if String.eqb d "" then "Sin descripción (se requiere aclarar)." else substring 0 240 d in
  let pasos :=
    if needs
    then ["Falta info crítica: describe objetivo + entregable esperado + contexto (links/ejemplos)."]
    else ["Revisar subtasks y ejecutar en orden.";
          "Actualizar resultados en cada subtask.";
          "Cerrar con validación final."] in
  let first := "Resumen: " ++ resumen in
  let steps := map (fun p => "- " ++ p) pasos in
  let risk := if needs then "- Bloqueo por falta de contexto."
              else "- Estimación puede cambiar al descubrir dependencias." in
  String.concat newline
    (([first; ""; "Pasos:"] ++ steps
      ++ [""; "Links:"; "- (vacío)"; ""; "Riesgos:"; risk])%list).

(** Entry of the [processed] array. *)
Record Processed := mkProcessed {
  p_id : nat;
  p_subtasks_created : nat;
  p_status : Status;
  p_skipped_existing : bool
}.

Definition agent_activity (env : Env) (jarvisId : option nat) (task : Task)
  (action : string) (data : ActData) : ActivityRow :=
  mkActivityRow (OWNER_ID env) "agent" jarvisId action "task" (task_id task) data.

(** The decided target status. *)
Definition target_status (task : Task) : Status :=
  if needsNico task then needs_nico else triage.

(** The body of the [for] loop for one task ([None] is [continue]). *)
Definition process_task (env : Env) (roster : Roster) (jarvisId : option nat) (task : Task)
  : M (option Processed) :=
  if negb (Status_eqb (status task) inbox) then ret None else
  existingSubs <- store_call env (op_select_subtasks env (task_id task)) ;;
  let alreadyHas := 0 <? List.length existingSubs in
  let needs := needsNico task in
  let newStatus := if needs then needs_nico else triage in
  createdCount <-
    (if negb alreadyHas && negb needs then
       let plan := buildSubtasks task in
       let rows := make_rows env roster jarvisId task plan in
       insData <- store_call env (op_insert_subtasks rows) ;;
       let createdCount :=
         match List.length insData with 0 => List.length rows | n => n end in
       _ <- insertActivity env
              (agent_activity env jarvisId task "create_subtasks" (data_created createdCount)) ;;
       ret createdCount
     else ret 0) ;;
  _ <- store_call env
         (op_insert_comment
            (mkCommentRow (OWNER_ID env) (task_id task) "agent" jarvisId
               (commentBody task needs))) ;;
  _ <- insertActivity env
         (agent_activity env jarvisId task "add_comment" (data_kind "triage_summary")) ;;
  _ <- store_call env (op_update_status env (task_id task) newStatus) ;;
  _ <- insertActivity env
         (agent_activity env jarvisId task "move_status" (data_move inbox newStatus)) ;;
  ret (Some (mkProcessed (task_id task) createdCount newStatus alreadyHas)).

(** [for (const task of tasks || []) { ... processed.push(...) }] *)
Fixpoint process_list (env : Env) (roster : Roster) (jarvisId : option nat)
  (ts : list Task) : M (list Processed) :=
  match ts with
  | [] => ret []
  | t :: ts' =>
      r <- process_task env roster jarvisId t ;;
      rest <- process_list env roster jarvisId ts' ;;
      ret (match r with Some p => p :: rest | None => rest end)
  end.

Definition main (env : Env) : M (list Processed) :=
  roster <- getAgentRoster env ;;
  let jarvisId := jarvis_id roster in
  tasks <- store_call env (op_select_inbox env) ;;
  process_list env roster jarvisId tasks.

(** The roster [main] loads from a store. *)
Definition active_roster (env : Env) (s : Store) : Roster :=
  build_roster (fst (op_select_agents env s)).

(** The process as observed from outside: exit code, standard output and
    error lines, and the store it leaves behind. *)
Record Outcome := mkOutcome {
  exit_code : nat;
  stdout : list string;
  stderr : list string;
  final_store : Store
}.

Definition nat_to_string (n : nat) : string :=
  NilEmpty.string_of_uint (Nat.to_uint n).

Definition status_name (s : Status) : string :=
  match s with
  | inbox => "inbox" | triage => "triage" | in_progress => "in_progress"
  | blocked => "blocked" | review => "review" | needs_nico => "needs_nico"
  | done => "done" | canceled => "canceled"
  end.

Definition summary_line (p : Processed) : string :=
  "- " ++ nat_to_string (p_id p) ++ ": +" ++ nat_to_string (p_subtasks_created p)
  ++ " subtasks, status=" ++ status_name (p_status p)
  ++ (if p_skipped_existing p then " (subtasks ya existían)" else "").

Definition empty_message : string := "Procesado: 0 tasks (no había tasks en inbox).".

(** [main().catch((e) => { console.error('ERROR triage:', e?.message || e);
    process.exitCode = 1; })] *)
Definition run (env : Env) (s : Store) : Outcome :=
  match main env s with
  | (Ok [], s') => mkOutcome 0 [empty_message] [] s'
  | (Ok processed, s') =>
      mkOutcome 0
        (("Procesado: " ++ nat_to_string (List.length processed) ++ " tasks")
         :: map summary_line processed) [] s'
  | (Err e, s') => mkOutcome 1 [] ["ERROR triage: " ++ e] s'
  end.

(* ------------------------------------------------------------------ *)
(** ** Relations between stores, used to state the run-level properties *)

(** A task row is left as it is, or moved once from [inbox] to [triage]
    or [needs_nico]. *)
Definition task_step (t t' : Task) : Prop :=
  t' = t
  \/ (status t = inbox /\ (status t' = triage \/ status t' = needs_nico)
      /\ t' = set_status (status t') t).

(** Nothing is removed or rolled back: task rows only take that step, the
    other relations only grow at their end, the roster is not touched. *)
Definition store_extends (s s' : Store) : Prop :=
  Forall2 task_step (tasks s) (tasks s')
  /\ (exists d, subtasks s' = (subtasks s ++ d)%list)
  /\ (exists d, comments s' = (comments s ++ d)%list)
  /\ (exists d, activity s' = (activity s ++ d)%list)
  /\ agents s' = agents s.

Definition respects (R : Store -> Store -> Prop) {A} (m : M A) : Prop :=
  forall s r s', m s = (r, s') -> R s s'.

Definition no_fault (env : Env) (a b : nat) : Prop :=
  forall n, a <= n < b -> fault env n = None.

(** Fail-fast discipline: a computation that succeeds made only successful
    round-trips; one that fails stopped right at its first failing
    round-trip, and returns that round-trip's error. *)
Definition disciplined (env : Env) {A} (m : M A) : Prop :=
  forall s r s', m s = (r, s') ->
  calls s <= calls s' /\
  match r with
  | Ok _ => no_fault env (calls s) (calls s')
  | Err e => calls s < calls s' /\ fault env (pred (calls s')) = Some e
             /\ no_fault env (calls s) (pred (calls s'))
  end.

(** A batch of subtask rows made from the plan of one task. *)
Definition good_batch (b : list SubtaskRow) : Prop :=
  exists t, List.length b = List.length (buildSubtasks t) /\
  forall i r, nth_error b i = Some r ->
    st_status r = in_progress /\ st_sort r = i /\ st_dod r <> "" /\ st_task r = task_id t
    /\ exists p, nth_error (buildSubtasks t) i = Some p
       /\ st_title r = step_title p /\ st_dod r = definition_of_done p
       /\ st_bucket r = step_bucket p.

Definition plans_added (s s' : Store) : Prop :=
  exists bs, subtasks s' = (subtasks s ++ List.concat bs)%list /\ Forall good_batch bs.

Definition has_subtask (env : Env) (X : nat) (s : Store) : Prop :=
  exists r, In r (subtasks s) /\ st_owner r = OWNER_ID env /\ st_task r = X.

Definition subtask_count (X : nat) (s : Store) : nat :=
  List.length (filter (fun r => st_task r =? X) (subtasks s)).

Definition comment_count (X : nat) (s : Store) : nat :=
  List.length (filter (fun c => c_task c =? X) (comments s)).

Definition activity_count (X : nat) (s : Store) : nat :=
  List.length (filter (fun a => a_entity a =? X) (activity s)).

(** Subtasks only grow, and an item that has a subtask of the owner keeps
    its subtask count. *)
Definition keeps_decomposed (env : Env) (s s' : Store) : Prop :=
  (exists d, subtasks s' = (subtasks s ++ d)%list)
  /\ forall X, has_subtask env X s -> subtask_count X s' = subtask_count X s.

(* ------------------------------------------------------------------ *)
(** ** Environment and scoping *)

(** [const v = process.env[name]; if (v) return v;] for each name in turn. *)
Fixpoint mustEnv_first (penv : string -> option string) (names : list string) : option string :=
  match names with
  | [] => None
  | name :: rest =>
      match penv name with
      | Some v => if String.eqb v "" then mustEnv_first penv rest else Some v
      | None => mustEnv_first penv rest
      end
  end.

(** [mustEnv(...names)]: the first set, non-empty variable, else
    [throw new Error(`Missing env: ${names.join(' | ')}`)]. *)
Definition mustEnv (penv : string -> option string) (names : list string) : Result string :=
  match mustEnv_first penv names with
  | Some v => Ok v
  | None => Err ("Missing env: " ++ String.concat " | " names)
  end.

Definition env_unset (penv : string -> option string) (name : string) : Prop :=
  penv name = None \/ penv name = Some "".



(** An agent id reference: [null], or the id of an active agent of the
    owner in [A0]. *)
Definition agent_ref (env : Env) (A0 : list Agent) (o : option nat) : Prop :=
  match o with
  | None => True
  | Some i => exists a, In a A0 /\ agent_owner a = OWNER_ID env /\ is_active a = true
                        /\ agent_id a = i
  end.

Definition scoped (env : Env) (A0 : list Agent) (s s' : Store) : Prop :=
  Forall2 (fun r r' => owner_id r <> OWNER_ID env -> r' = r) (tasks s) (tasks s')
  /\ (exists d, subtasks s' = (subtasks s ++ d)%list
       /\ Forall (fun r => st_owner r = OWNER_ID env /\ agent_ref env A0 (st_assignee r)) d)
  /\ (exists d, comments s' = (comments s ++ d)%list
       /\ Forall (fun c => c_owner c = OWNER_ID env /\ agent_ref env A0 (c_author c)) d)
  /\ (exists d, activity s' = (activity s ++ d)%list
       /\ Forall (fun a => a_owner a = OWNER_ID env /\ agent_ref env A0 (a_actor a)) d)
  /\ agents s' = agents s.

(* ------------------------------------------------------------------ *)
(** ** A sample backlog *)

(** Owner [0] has two inbox items: a concrete bug report and a vague
    "ayuda" (older); its active agents are Jarvis and dev. *)
Definition demo_env : Env := mkEnv 0 (fun _ => None).

Definition demo_task1 : Task := mkTask 1 (Some "Fix bug in API") (Some "") inbox 5 0.
Definition demo_task2 : Task := mkTask 2 (Some "ayuda") (Some "") inbox 3 0.

Definition demo_store : Store :=
  mkStore [demo_task1; demo_task2] [] [] []
    [mkAgent 7 (Some "Jarvis") 0 true; mkAgent 8 (Some "dev") 0 true] 0.

(** The same owner, with the tenth store call (the [create_subtasks]
    activity of item 1, after item 2 was fully processed) answering with an
    error. *)
Definition demo_failing_env : Env :=
  mkEnv 0 (fun n => if n =? 9 then Some "boom" else None).

Definition demo_empty_store : Store := mkStore [] [] [] [] [] 0.

(** What the first run reports. *)
Definition demo_processed : list Processed :=
  [mkProcessed 2 0 needs_nico false; mkProcessed 1 3 triage false].

(** The store after one run, and after a second run. *)
Definition demo_after1 : Store := snd (main demo_env demo_store).
Definition demo_after2 : Store := snd (main demo_env demo_after1).
Definition demo_penv (name : string) : option string :=
  if String.eqb name "SUPABASE_URL" then Some ""
  else if String.eqb name "NEXT_PUBLIC_SUPABASE_URL" then Some "https://db.example"
  else None.
Definition demo_task1_after : Store :=
  snd (process_task demo_env (active_roster demo_env demo_store)
         (jarvis_id (active_roster demo_env demo_store)) demo_task1 demo_store).

(* ================================================================== *)
(** * Proofs *)

Example filler_re_test_ex1 : filler_re_test " -IdEa!! " = true.
Proof. reflexivity. Qed.

Example filler_re_test_ex2 : filler_re_test "ideas" = false.
Proof. reflexivity. Qed.

Example inferAgentBucket_ex : inferAgentBucket (Some "Fix bug in API") (Some "") = "Dev".
Proof. reflexivity. Qed.

Lemma str_forall_app f a b :
  str_forall f (a ++ b) = str_forall f a && str_forall f b.
Proof.
  induction a as [|c a IH]; simpl; [reflexivity|].
  rewrite IH, andb_assoc; reflexivity.
Qed.

Lemma re_star_nonword_spec k s :
  re_star_nonword k s = true <->
  exists pre rest, s = pre ++ rest /\ nonword pre = true /\ k rest = true.
Proof.
  induction s as [|c s IH]; simpl.
  - split.
    + intros H; exists "", ""; auto.
    + intros (pre & rest & E & _ & Hk).
      destruct pre; [|discriminate]; simpl in E; subst; exact Hk.
  - rewrite orb_true_iff, andb_true_iff, IH, negb_true_iff. split.
    + intros [[Hc (pre & rest & E & Hp & Hk)] | Hk].
      * exists (String c pre), rest; subst; simpl.
        unfold nonword in *; simpl; rewrite Hc, Hp; auto.
      * exists "", (String c s); auto.
    + intros (pre & rest & E & Hp & Hk).
      destruct pre as [|c' pre]; simpl in E.
      * right; subst; exact Hk.
      * injection E as -> ->. unfold nonword in Hp; simpl in Hp.
        apply andb_true_iff in Hp as [Hc Hp].
        left; split; [apply negb_true_iff; exact Hc|].
        exists pre, rest; auto.
Qed.

Lemma re_literal_ci_spec w s r :
  re_literal_ci w s = Some r <-> exists mid, s = mid ++ r /\ fold_str mid = w.
Proof.
  revert s; induction w as [|p w IH]; intros s; simpl.
  - split.
    + intros H; injection H as ->; exists ""; auto.
    + intros ([|c mid] & E & F); simpl in *; [subst; reflexivity|discriminate].
  - destruct s as [|c s].
    + split; [discriminate|].
      intros ([|c mid] & E & F); simpl in *; [subst; discriminate|discriminate].
    + destruct (Ascii.eqb (JS.ascii_fold c) p) eqn:Hc.
      * apply Ascii.eqb_eq in Hc. rewrite IH. split.
        -- intros (mid & E & F); exists (String c mid); subst; simpl; auto.
        -- intros ([|c' mid] & E & F); simpl in *; [discriminate|].
           injection E as -> ->; injection F as _ F; eauto.
      * split; [discriminate|].
        intros ([|c' mid] & E & F); simpl in *; [discriminate|].
        injection E as -> ->; injection F as F _.
        rewrite F, Ascii.eqb_refl in Hc; discriminate.
Qed.

Lemma re_alt_ci_spec ws k s :
  re_alt_ci ws k s = true <->
  exists w mid r, In w ws /\ s = mid ++ r /\ fold_str mid = w /\ k r = true.
Proof.
  unfold re_alt_ci; rewrite existsb_exists. split.
  - intros (w & Hin & H).
    destruct (re_literal_ci w s) as [r|] eqn:E; [|discriminate].
    apply re_literal_ci_spec in E as (mid & E & F); eauto 7.
  - intros (w & mid & r & Hin & E & F & Hk). exists w; split; [exact Hin|].
    assert (re_literal_ci w s = Some r) as ->
      by (apply re_literal_ci_spec; eauto).
    exact Hk.
Qed.

Lemma re_end_spec s : re_end s = true <-> s = "".
Proof. destruct s; simpl; split; congruence. Qed.

Lemma append_assoc_str (a b c : string) : (a ++ b) ++ c = a ++ (b ++ c).
Proof. induction a; simpl; [reflexivity|]; rewrite IHa; reflexivity. Qed.

Lemma append_nil_r_str (a : string) : a ++ "" = a.
Proof. induction a; simpl; [reflexivity|]; rewrite IHa; reflexivity. Qed.

(** The backtracking matcher decides exactly the spec's pattern. *)
Lemma filler_re_test_spec s : filler_re_test s = true <-> filler_pattern s.
Proof.
  unfold filler_re_test, filler_pattern.
  rewrite re_star_nonword_spec. split.
  - intros (pre & rest & E & Hp & Ha).
    apply re_alt_ci_spec in Ha as (w & mid & r & Hin & E2 & F & Hr).
    apply re_star_nonword_spec in Hr as (suf & e & E3 & Hs & He).
    apply re_end_spec in He; subst e.
    rewrite append_nil_r_str in E3; subst r.
    exists pre, mid, suf, w; subst; auto.
  - intros (pre & mid & suf & w & E & Hp & Hs & Hin & F).
    exists pre, (mid ++ suf); repeat split; auto.
    apply re_alt_ci_spec. exists w, mid, suf; repeat split; auto.
    apply re_star_nonword_spec. exists suf, ""; rewrite append_nil_r_str; auto.
Qed.

Lemma length_zero_iff (s : string) : String.length s = 0 <-> s = "".
Proof. destruct s; simpl; split; congruence. Qed.

(** C1 *)
(** Claim C1: [needsNico] is true iff the trimmed title is shorter than 8
    code units or matches the filler-word pattern (case-insensitive, with
    surrounding non-word characters), and the trimmed description is empty. *)
Theorem needsNico_iff :
  forall (id : nat) (ti de : string) (st : Status) (ca ow : nat),
    needsNico (mkTask id (Some ti) (Some de) st ca ow) = true <->
    ((String.length (JS.trim ti) < 8 \/ filler_pattern (JS.trim ti))
     /\ JS.trim de = "").
Proof.
  intros. unfold needsNico; simpl.
  rewrite andb_true_iff, orb_true_iff, Nat.ltb_lt, Nat.eqb_eq, length_zero_iff,
    filler_re_test_spec.
  reflexivity.
Qed.

Lemma plan_pushes_cases b :
  plan_pushes b = [step_clarify; step_validate]
  \/ exists s, plan_pushes b = [step_clarify; s; step_validate].
Proof.
  unfold plan_pushes.
  destruct (String.eqb b "Research") eqn:E1;
    [apply String.eqb_eq in E1; subst; right; eexists; reflexivity|].
  destruct (String.eqb b "Skool") eqn:E2;
    [apply String.eqb_eq in E2; subst; right; eexists; reflexivity|].
  destruct (String.eqb b "Dev") eqn:E3;
    [apply String.eqb_eq in E3; subst; right; eexists; reflexivity|].
  destruct (String.eqb b "Ops") eqn:E4;
    [apply String.eqb_eq in E4; subst; right; eexists; reflexivity|].
  left; reflexivity.
Qed.

(** C2 *)
(** Claim C2: the plan built for any item has between 2 and 7 steps, its
    first step is the scope-clarification step, its last step is the
    final-validation step, and it is the push sequence cut by the cap of 7. *)
Theorem buildSubtasks_shape : forall task : Task,
  let p := buildSubtasks task in
  2 <= List.length p <= 7
  /\ option_map step_title (hd_error p) = Some "Aclarar alcance y criterios"
  /\ option_map step_title (last_step p) = Some "Validación final"
  /\ p = firstn 7 (plan_pushes (inferAgentBucket (title task) (description task))).
Proof.
  intros task p. subst p. unfold buildSubtasks.
  destruct (plan_pushes_cases (inferAgentBucket (title task) (description task)))
    as [-> | [s ->]]; simpl; repeat split; lia.
Qed.

(** C3 *)
(** Claim C3: [inferAgentBucket] is the first-match evaluation of the ordered
    rule table (Skool, Ops, Dev, Research) over the lower-cased text
    [trim(title) + "\n" + trim(description)], with default bucket "Jarvis".
    As a Rocq function of its two arguments it is pure and deterministic. *)
Theorem inferAgentBucket_first_match : forall ti de : option string,
  inferAgentBucket ti de
  = first_match agent_rules
      (JS.toLowerCase (normalizeText ti ++ newline ++ normalizeText de)).
Proof. intros ti de. reflexivity. Qed.


(* ------------------------------------------------------------------ *)
(** ** Generic reasoning about the monad *)

Section Respects.
Variable R : Store -> Store -> Prop.
Hypothesis R_refl : forall s, R s s.
Hypothesis R_trans : forall a b c, R a b -> R b c -> R a c.
Hypothesis R_tick : forall s, R s (tick s).

Lemma respects_ret {A} (a : A) : respects R (ret a).
Proof. intros s r s' H; injection H as _ <-; apply R_refl. Qed.

Lemma respects_bind {A B} (m : M A) (k : A -> M B) :
  respects R m -> (forall a, respects R (k a)) -> respects R (bind m k).
Proof.
  intros Hm Hk s r s' H; unfold bind in H.
  destruct (m s) as [[a|e] s1] eqn:E.
  - apply R_trans with s1; [eapply Hm; exact E | eapply Hk; exact H].
  - injection H as _ <-; eapply Hm; exact E.
Qed.

Lemma respects_store_call {A} env (op : Store -> A * Store) :
  (forall s a s', op s = (a, s') -> R s s') -> respects R (store_call env op).
Proof.
  intros Hop s r s' H; unfold store_call in H.
  destruct (fault env (calls s)).
  - injection H as _ <-; apply R_tick.
  - destruct (op (tick s)) as [a s2] eqn:E; injection H as _ <-.
    apply R_trans with (tick s); [apply R_tick | eapply Hop; exact E].
Qed.

End Respects.


Lemma tick_subtasks s : subtasks (tick s) = subtasks s.
Proof. reflexivity. Qed.

Lemma firstn1_nil {A} (l : list A) : List.length (firstn 1 l) = 0 -> l = [].
Proof. destruct l; simpl; congruence. Qed.

Section ProcessRespects.
Variable env : Env.
Variable R : Store -> Store -> Prop.
(** The tasks whose writes [R] tolerates. *)
Variable ok_task : Task -> Prop.
Hypothesis R_refl : forall s, R s s.
Hypothesis R_trans : forall a b c, R a b -> R b c -> R a c.
Hypothesis R_tick : forall s, R s (tick s).
Hypothesis R_comment : forall t c s, ok_task t -> c_task c = task_id t ->
  R s (add_comment c s).
Hypothesis R_activity : forall t a s, ok_task t -> a_entity a = task_id t ->
  R s (add_activity a s).
Hypothesis R_update : forall t st s, ok_task t -> st = triage \/ st = needs_nico ->
  R s (with_tasks (update_status env (task_id t) st (tasks s)) s).
Hypothesis R_insert : forall roster j t s, ok_task t ->
  filter (fun r => (st_owner r =? OWNER_ID env) && (st_task r =? task_id t)) (subtasks s) = [] ->
  R s (add_subtasks (make_rows env roster j t (buildSubtasks t)) s).

Lemma use_respects {A} (m : M A) s r s' : respects R m -> m s = (r, s') -> R s s'.
Proof. intros Hm H; exact (Hm s r s' H). Qed.

Lemma op_pure_R {A} (op : Store -> A * Store) :
  (forall s, snd (op s) = s) -> forall s a s', op s = (a, s') -> R s s'.
Proof. intros Hop s a s' E. specialize (Hop s). rewrite E in Hop; simpl in Hop; subst; auto. Qed.

Lemma op_insert_comment_R t c : ok_task t -> c_task c = task_id t ->
  forall s a s', op_insert_comment c s = (a, s') -> R s s'.
Proof. intros Ht Hc s a s' E; injection E as _ <-; eauto. Qed.

Lemma insertActivity_R t a : ok_task t -> a_entity a = task_id t ->
  respects R (insertActivity env a).
Proof.
  intros Ht Ha. apply respects_store_call; auto.
  intros s x s' E; injection E as _ <-; eauto.
Qed.

Lemma op_update_status_R t st : ok_task t -> st = triage \/ st = needs_nico ->
  forall s a s', op_update_status env (task_id t) st s = (a, s') -> R s s'.
Proof. intros Ht Hst s a s' E; injection E as _ <-; auto. Qed.

Ltac walk t :=
  repeat first
    [ assumption
    | reflexivity
    | apply respects_bind
    | apply respects_ret
    | apply (insertActivity_R t)
    | apply respects_store_call
    | apply (op_insert_comment_R t)
    | apply (op_update_status_R t)
    | match goal with |- forall _, _ => intro end ].

Lemma insert_part_R roster j t s r s2 :
  ok_task t ->
  filter (fun r => (st_owner r =? OWNER_ID env) && (st_task r =? task_id t)) (subtasks s) = [] ->
  (insData <- store_call env (op_insert_subtasks (make_rows env roster j t (buildSubtasks t))) ;;
   let createdCount :=
     match List.length insData with
     | 0 => List.length (make_rows env roster j t (buildSubtasks t))
     | n => n end in
   _ <- insertActivity env
          (agent_activity env j t "create_subtasks" (data_created createdCount)) ;;
   ret createdCount) s = (r, s2) ->
  R s s2.
Proof.
  intros Ht Hnil E.
  unfold bind at 1, store_call at 1 in E.
  destruct (fault env (calls s)); [injection E as _ <-; auto|].
  cbv beta iota zeta delta [op_insert_subtasks] in E.
  apply R_trans with (tick s); [auto|].
  apply R_trans with (add_subtasks (make_rows env roster j t (buildSubtasks t)) (tick s)).
  - apply R_insert; assumption.
  - eapply use_respects; [|exact E]. walk t.
Qed.

Lemma process_task_respects roster j t : ok_task t -> respects R (process_task env roster j t).
Proof.
  intros Ht. unfold process_task.
  destruct (negb (Status_eqb (status t) inbox)); [apply respects_ret; auto|].
  intros s r s' H. unfold bind at 1, store_call at 1 in H.
  destruct (fault env (calls s)) eqn:F; [injection H as _ <-; auto|].
  cbv beta iota zeta delta [op_select_subtasks] in H.
  set (ex := firstn 1 _) in H.
  apply R_trans with (tick s); [auto|].
  unfold bind at 1 in H.
  match type of H with
  | context [match ?m (tick s) with _ => _ end] =>
      destruct (m (tick s)) as [[c|e] s2] eqn:E
  end.
  - apply R_trans with s2.
    + destruct (negb (0 <? List.length ex) && negb (needsNico t)) eqn:C.
      * apply andb_true_iff in C as [C _].
        apply negb_true_iff, Nat.ltb_ge in C.
        eapply insert_part_R; [exact Ht| |exact E].
        apply firstn1_nil; unfold ex in C; lia.
      * injection E as _ <-; auto.
    + eapply use_respects; [|exact H]. walk t. destruct (needsNico t); auto.
  - injection H as _ <-.
    destruct (negb (0 <? List.length ex) && negb (needsNico t)) eqn:C.
    + apply andb_true_iff in C as [C _].
      apply negb_true_iff, Nat.ltb_ge in C.
      eapply insert_part_R; [exact Ht| |exact E].
      apply firstn1_nil; unfold ex in C; lia.
    + discriminate E.
Qed.

Lemma process_list_respects roster j ts :
  Forall ok_task ts -> respects R (process_list env roster j ts).
Proof.
  induction ts as [|t ts IH]; intros Hts; simpl; [apply respects_ret; auto|].
  inversion Hts; subst.
  apply respects_bind; auto; [apply process_task_respects; assumption|intros r].
  apply respects_bind; auto; intros; apply respects_ret; auto.
Qed.

Lemma main_respects s r s' :
  Forall ok_task (select_inbox env (tasks s)) -> main env s = (r, s') -> R s s'.
Proof.
  intros Hok H. unfold main, getAgentRoster, bind at 1 2, store_call at 1 in H.
  destruct (fault env (calls s)); [injection H as _ <-; auto|].
  cbv beta iota zeta delta [op_select_agents ret] in H.
  apply R_trans with (tick s); [auto|].
  unfold bind at 1, store_call at 1 in H.
  destruct (fault env (calls (tick s))); [injection H as _ <-; auto|].
  cbv beta iota zeta delta [op_select_inbox] in H.
  apply R_trans with (tick (tick s)); [auto|].
  eapply use_respects; [|exact H].
  apply process_list_respects. exact Hok.
Qed.

End ProcessRespects.

(* ------------------------------------------------------------------ *)
(** ** No rollback: the run only extends the store *)

Lemma task_step_refl t : task_step t t.
Proof. left; reflexivity. Qed.

Lemma task_step_trans a b c : task_step a b -> task_step b c -> task_step a c.
Proof.
  intros [-> | (Ha & Hb & ->)] [-> | (Hb' & Hc & ->)]; unfold task_step;
    try solve [auto].
Qed.

Lemma Forall2_task_step_refl l : Forall2 task_step l l.
Proof. induction l; constructor; auto using task_step_refl. Qed.

Lemma Forall2_task_step_trans l1 l2 l3 :
  Forall2 task_step l1 l2 -> Forall2 task_step l2 l3 -> Forall2 task_step l1 l3.
Proof.
  intros H12; revert l3; induction H12; intros l3 H23; inversion H23; subst;
    constructor; eauto using task_step_trans.
Qed.

Lemma update_status_step env tid st ts :
  st = triage \/ st = needs_nico -> Forall2 task_step ts (update_status env tid st ts).
Proof.
  intros Hst. induction ts as [|t ts IH]; simpl; constructor; auto.
  destruct (cas_match env tid t) eqn:C; [|apply task_step_refl].
  unfold cas_match in C. apply andb_true_iff in C as [_ C].
  right; simpl; split; [destruct (status t); simpl in C; congruence|].
  split; [exact Hst | reflexivity].
Qed.

Lemma store_extends_refl s : store_extends s s.
Proof.
  repeat split; [apply Forall2_task_step_refl| | |];
    exists []; rewrite app_nil_r; reflexivity.
Qed.

Lemma store_extends_trans a b c :
  store_extends a b -> store_extends b c -> store_extends a c.
Proof.
  intros (T1 & [d1 S1] & [e1 C1] & [f1 A1] & G1) (T2 & [d2 S2] & [e2 C2] & [f2 A2] & G2).
  repeat split.
  - eapply Forall2_task_step_trans; eauto.
  - exists (d1 ++ d2)%list; rewrite S2, S1, app_assoc; reflexivity.
  - exists (e1 ++ e2)%list; rewrite C2, C1, app_assoc; reflexivity.
  - exists (f1 ++ f2)%list; rewrite A2, A1, app_assoc; reflexivity.
  - congruence.
Qed.

Lemma se_tick s : store_extends s (tick s).
Proof.
  repeat split; [apply Forall2_task_step_refl| | |]; simpl;
    exists []; rewrite ?app_nil_r; reflexivity.
Qed.

Lemma se_comment (t : Task) c s : True -> c_task c = task_id t -> store_extends s (add_comment c s).
Proof.
  intros _ _. repeat split; [apply Forall2_task_step_refl| | |]; simpl;
    [exists [] | exists [c] | exists []]; rewrite ?app_nil_r; reflexivity.
Qed.

Lemma se_activity (t : Task) a s : True -> a_entity a = task_id t -> store_extends s (add_activity a s).
Proof.
  intros _ _. repeat split; [apply Forall2_task_step_refl| | |]; simpl;
    [exists [] | exists [] | exists [a]]; rewrite ?app_nil_r; reflexivity.
Qed.

Lemma se_update env t st s : True -> st = triage \/ st = needs_nico ->
  store_extends s (with_tasks (update_status env (task_id t) st (tasks s)) s).
Proof.
  intros _ Hst. repeat split; [apply update_status_step; exact Hst| | |]; simpl;
    exists []; rewrite ?app_nil_r; reflexivity.
Qed.

Lemma se_insert env roster j t s : True ->
  filter (fun r => (st_owner r =? OWNER_ID env) && (st_task r =? task_id t)) (subtasks s) = [] ->
  store_extends s (add_subtasks (make_rows env roster j t (buildSubtasks t)) s).
Proof.
  intros _ _. repeat split; [apply Forall2_task_step_refl| | |]; simpl;
    [eexists; reflexivity | exists [] | exists []]; rewrite ?app_nil_r; reflexivity.
Qed.

Lemma process_list_extends env roster j ts s r s' :
  process_list env roster j ts s = (r, s') -> store_extends s s'.
Proof.
  apply (process_list_respects env store_extends (fun _ => True)).
  - apply store_extends_refl.
  - apply store_extends_trans.
  - apply se_tick.
  - apply se_comment.
  - apply se_activity.
  - apply se_update.
  - apply se_insert.
  - apply Forall_forall; auto.
Qed.

Lemma main_extends env s r s' : main env s = (r, s') -> store_extends s s'.
Proof.
  apply (main_respects env store_extends (fun _ => True)).
  - apply store_extends_refl.
  - apply store_extends_trans.
  - apply se_tick.
  - apply se_comment.
  - apply se_activity.
  - apply se_update.
  - apply se_insert.
  - apply Forall_forall; auto.
Qed.

(* ------------------------------------------------------------------ *)
(** ** Fail-fast *)

Section FailFast.
Variable env : Env.

Lemma disciplined_ret {A} (a : A) : disciplined env (ret a).
Proof. intros s r s' H; injection H as <- <-; split; [lia|]; intros n Hn; lia. Qed.

Lemma disciplined_bind {A B} (m : M A) (k : A -> M B) :
  disciplined env m -> (forall a, disciplined env (k a)) -> disciplined env (bind m k).
Proof.
  intros Hm Hk s r s' H; unfold bind in H.
  destruct (m s) as [[a|e] s1] eqn:E.
  - destruct (Hm _ _ _ E) as [L1 N1].
    destruct (Hk a _ _ _ H) as [L2 N2].
    split; [lia|]. destruct r as [b|e].
    + intros n Hn. destruct (Nat.lt_ge_cases n (calls s1)); [apply N1|apply N2]; lia.
    + destruct N2 as (L3 & F & N2). split; [lia|]. split; [exact F|].
      intros n Hn. destruct (Nat.lt_ge_cases n (calls s1)); [apply N1|apply N2]; lia.
  - injection H as <- <-. exact (Hm _ _ _ E).
Qed.

Lemma disciplined_store_call {A} (op : Store -> A * Store) :
  (forall s a s', op s = (a, s') -> calls s' = calls s) -> disciplined env (store_call env op).
Proof.
  intros Hop s r s' H; unfold store_call in H.
  destruct (fault env (calls s)) as [e|] eqn:F.
  - injection H as <- <-; simpl. split; [lia|]. split; [lia|]. split; [exact F|].
    intros n Hn; lia.
  - destruct (op (tick s)) as [a s2] eqn:E; injection H as <- <-.
    apply Hop in E; simpl in E. rewrite E. split; [lia|].
    intros n Hn. replace n with (calls s) by lia. exact F.
Qed.

Ltac walk_d :=
  repeat first
    [ apply disciplined_bind
    | apply disciplined_ret
    | apply disciplined_store_call; intros ? ? ? Hop; injection Hop as _ <-; reflexivity
    | match goal with |- disciplined _ (if ?b then _ else _) => destruct b end
    | match goal with |- forall _, _ => intro end ].

Lemma process_task_disciplined roster j t : disciplined env (process_task env roster j t).
Proof. unfold process_task, insertActivity. walk_d. Qed.

Lemma process_list_disciplined roster j ts : disciplined env (process_list env roster j ts).
Proof.
  induction ts as [|t ts IH]; simpl; [apply disciplined_ret|].
  apply disciplined_bind; [apply process_task_disciplined|intros r].
  apply disciplined_bind; [exact IH|intros; apply disciplined_ret].
Qed.

Lemma main_disciplined : disciplined env (main env).
Proof.
  unfold main, getAgentRoster. walk_d. apply process_list_disciplined.
Qed.

End FailFast.

Lemma main_unfold env s :
  fault env (calls s) = None -> fault env (S (calls s)) = None ->
  main env s = process_list env (active_roster env s) (jarvis_id (active_roster env s))
                 (select_inbox env (tasks s)) (tick (tick s)).
Proof.
  intros F1 F2. unfold main, getAgentRoster, bind, store_call, ret.
  rewrite F1. simpl. rewrite F2. reflexivity.
Qed.

Lemma bind_ret_state {A B} (m : M A) (f : A -> B) s :
  snd (bind m (fun x => ret (f x)) s) = snd (m s).
Proof. unfold bind, ret. destruct (m s) as [[a|e] s1]; reflexivity. Qed.

(** Items processed before a failure keep their writes: the end state is
    reached from the state after them. *)
Lemma process_list_app_state env roster j xs ys s ps sx :
  process_list env roster j xs s = (Ok ps, sx) ->
  snd (process_list env roster j (xs ++ ys) s) = snd (process_list env roster j ys sx).
Proof.
  revert s ps; induction xs as [|t xs IH]; intros s ps H.
  - simpl in H. injection H as _ <-. reflexivity.
  - simpl in H |- *. unfold bind at 1 in H. unfold bind at 1.
    destruct (process_task env roster j t s) as [[r0|e] s1]; [|discriminate H].
    unfold bind at 1 in H.
    destruct (process_list env roster j xs s1) as [[ps'|e] s2] eqn:E; [|discriminate H].
    injection H as _ <-.
    rewrite (bind_ret_state (process_list env roster j (xs ++ ys))
               (fun rest => match r0 with Some p => p :: rest | None => rest end)).
    apply (IH s1 ps'). exact E.
Qed.

(** C9 *)
(** Claim C9: a failing store call aborts the run at once: whenever one of
    the store calls the run makes fails, the run ends in an error, so no
    failure is caught and skipped; an erroring run exits with code 1 and one
    [ERROR triage:] line on standard error, the failing round-trip is the
    last one made and every earlier one succeeded, nothing is rolled back
    (the final store extends the initial one and the store reached after
    the items processed before the failure); with an empty backlog the run
    exits 0 printing the zero-tasks message. *)
Theorem run_fail_fast_no_rollback : forall (env : Env) (s : Store),
  (forall n, calls s <= n < calls (snd (main env s)) -> fault env n <> None ->
     exists e, fst (main env s) = Err e)
  /\ (forall e s', main env s = (Err e, s') ->
     run env s = mkOutcome 1 [] ["ERROR triage: " ++ e] s'
     /\ calls s < calls s' /\ fault env (pred (calls s')) = Some e
     /\ no_fault env (calls s) (pred (calls s'))
     /\ store_extends s s'
     /\ (forall xs ys ps sx,
           fault env (calls s) = None -> fault env (S (calls s)) = None ->
           select_inbox env (tasks s) = (xs ++ ys)%list ->
           process_list env (active_roster env s) (jarvis_id (active_roster env s))
             xs (tick (tick s)) = (Ok ps, sx) ->
           store_extends sx s'))
  /\ (fault env (calls s) = None -> fault env (S (calls s)) = None ->
      select_inbox env (tasks s) = [] ->
      run env s = mkOutcome 0 [empty_message] [] (tick (tick s))).
Proof.
  intros env s. split; [|split].
  - intros n Hn Hf. destruct (main env s) as [[ps|e] s'] eqn:H; simpl in *.
    + destruct (main_disciplined env s _ _ H) as (_ & N).
      exfalso. apply Hf, N. exact Hn.
    + exists e; reflexivity.
  - intros e s' H.
    destruct (main_disciplined env s _ _ H) as (_ & L & F & N).
    split; [unfold run; rewrite H; reflexivity|].
    split; [exact L|]. split; [exact F|]. split; [exact N|].
    split; [eapply main_extends; exact H|].
    intros xs ys ps sx F1 F2 Hsel Hxs.
    rewrite (main_unfold env s F1 F2), Hsel in H.
    pose proof (process_list_app_state env _ _ xs ys _ _ _ Hxs) as E.
    rewrite H in E; simpl in E.
    destruct (process_list env (active_roster env s) (jarvis_id (active_roster env s)) ys sx)
      as [r' s''] eqn:Hys.
    simpl in E; subst s''.
    eapply process_list_extends; exact Hys.
  - intros F1 F2 Hsel. unfold run. rewrite (main_unfold env s F1 F2), Hsel. reflexivity.
Qed.

Lemma bind_call_ok {A B} env (op : Store -> A * Store) (k : A -> M B) s :
  fault env (calls s) = None ->
  bind (store_call env op) k s = (let (a, s2) := op (tick s) in k a s2).
Proof. intros F; unfold bind, store_call; rewrite F; destruct (op (tick s)); reflexivity. Qed.

Lemma bind_assoc_s {A B C} (m : M A) (f : A -> M B) (g : B -> M C) s :
  bind (bind m f) g s = bind m (fun a => bind (f a) g) s.
Proof. unfold bind. destruct (m s) as [[a|e] s1]; reflexivity. Qed.

Lemma bind_ret_s {A B} (a : A) (k : A -> M B) s : bind (ret a) k s = k a s.
Proof. reflexivity. Qed.

Ltac step NF :=
  first
    [ rewrite bind_assoc_s
    | rewrite bind_ret_s
    | rewrite bind_call_ok by (apply NF; simpl; lia) ];
  cbv beta iota zeta delta [op_select_subtasks op_insert_subtasks op_insert_comment
    op_insert_activity op_update_status].

Lemma update_status_spec env tid st ts :
  Forall2 (fun r r' =>
    if (owner_id r =? OWNER_ID env) && (task_id r =? tid) && Status_eqb (status r) inbox
    then r' = set_status st r else r' = r) ts (update_status env tid st ts).
Proof.
  induction ts as [|r ts IH]; simpl; constructor; auto.
  unfold cas_match. destruct (_ && _ && _); reflexivity.
Qed.

Lemma update_status_none env tid st ts :
  (forall r, In r ts -> owner_id r = OWNER_ID env -> task_id r = tid -> status r <> inbox) ->
  update_status env tid st ts = ts.
Proof.
  induction ts as [|r ts IH]; intros H; simpl; [reflexivity|].
  rewrite IH by (intros; apply H; simpl; auto).
  unfold cas_match.
  destruct (owner_id r =? OWNER_ID env) eqn:E1; [|reflexivity].
  destruct (task_id r =? tid) eqn:E2; [|reflexivity].
  destruct (status r) eqn:E3; try reflexivity.
  apply Nat.eqb_eq in E1, E2. exfalso; apply (H r); simpl; auto.
Qed.

(** C5 *)
(** Claim C5: for an item fetched in [inbox], when its round-trips succeed,
    its status write is conditional: exactly the rows with the item's id, the
    configured owner and stored status [inbox] get the target status, all
    others are left alone (so if none is still [inbox] the write changes
    nothing), no error is raised either way, and the last activity entry is
    the [move_status] entry from [inbox] to the target. *)
Theorem process_task_conditional_write :
  forall (env : Env) (roster : Roster) (j : option nat) (t : Task) (s : Store),
    status t = inbox ->
    no_fault env (calls s) (calls s + 7) ->
    exists out s',
      process_task env roster j t s = (Ok (Some out), s')
      /\ Forall2 (fun r r' =>
           if (owner_id r =? OWNER_ID env) && (task_id r =? task_id t)
              && Status_eqb (status r) inbox
           then r' = set_status (p_status out) r else r' = r)
         (tasks s) (tasks s')
      /\ ((forall r, In r (tasks s) -> owner_id r = OWNER_ID env ->
             task_id r = task_id t -> status r <> inbox) ->
          tasks s' = tasks s)
      /\ exists pre, activity s' =
           (pre ++ [agent_activity env j t "move_status" (data_move inbox (p_status out))])%list.
Proof.
  intros env roster j t s Hin NF.
  unfold process_task, insertActivity.
  replace (negb (Status_eqb (status t) inbox)) with false by (rewrite Hin; reflexivity).
  cbv iota.
  step NF.
  set (ex := firstn 1 _).
  destruct (negb (0 <? List.length ex) && negb (needsNico t)) eqn:C;
    repeat step NF;
    unfold ret; do 2 eexists; (split; [reflexivity|]);
    cbn [tasks activity add_activity tick with_tasks add_comment add_subtasks p_status];
    (split; [apply update_status_spec|]);
    (split; [apply update_status_none|]);
    eexists; reflexivity.
Qed.

(* ------------------------------------------------------------------ *)
(** ** The fetched batch and the processing order *)

Lemma bind_ok_inv {A B} (m : M A) (k : A -> M B) s b s' :
  bind m k s = (Ok b, s') -> exists a s1, m s = (Ok a, s1) /\ k a s1 = (Ok b, s').
Proof.
  unfold bind. destruct (m s) as [[a|e] s1]; [|discriminate]. intros H; eauto.
Qed.

Lemma process_task_ok env roster j t s r s' :
  status t = inbox -> process_task env roster j t s = (Ok r, s') ->
  exists p, r = Some p /\ p_id p = task_id t
            /\ p_status p = (if needsNico t then needs_nico else triage).
Proof.
  intros Hin H. unfold process_task in H.
  replace (negb (Status_eqb (status t) inbox)) with false in H by (rewrite Hin; reflexivity).
  cbv iota in H.
  repeat (apply bind_ok_inv in H as (? & ? & ? & H)).
  unfold ret in H. injection H as <- _. eexists; eauto.
Qed.

Lemma process_list_ok env roster j ts s ps s' :
  Forall (fun t => status t = inbox) ts ->
  process_list env roster j ts s = (Ok ps, s') ->
  Forall2 (fun t p => p_id p = task_id t
                      /\ p_status p = (if needsNico t then needs_nico else triage)) ts ps.
Proof.
  revert s ps s'; induction ts as [|t ts IH]; intros s ps s' Hin H; simpl in H.
  - injection H as <- _. constructor.
  - inversion Hin as [|? ? Ht Hts]; subst.
    apply bind_ok_inv in H as (r & s1 & Hr & H).
    apply bind_ok_inv in H as (rest & s2 & Hrest & H).
    injection H as <- _.
    destruct (process_task_ok _ _ _ _ _ _ _ Ht Hr) as (p & -> & Hp).
    constructor; [exact Hp|]. eapply IH; eauto.
Qed.

Lemma main_ok_inv env s ps s' :
  main env s = (Ok ps, s') -> fault env (calls s) = None /\ fault env (S (calls s)) = None.
Proof.
  intros H. unfold main, getAgentRoster, bind at 1 2, store_call at 1 in H.
  destruct (fault env (calls s)) eqn:F1; [discriminate H|].
  cbv beta iota zeta delta [op_select_agents ret] in H.
  unfold bind at 1, store_call at 1 in H.
  destruct (fault env (calls (tick s))) eqn:F2; [discriminate H|].
  split; auto.
Qed.

Lemma insert_by_created_perm t l : Permutation (insert_by_created t l) (t :: l).
Proof.
  induction l as [|x l IH]; simpl; [reflexivity|].
  destruct (created_at t <=? created_at x); [reflexivity|].
  rewrite IH. apply perm_swap.
Qed.

Lemma sort_by_created_perm l : Permutation (sort_by_created l) l.
Proof.
  induction l as [|t l IH]; simpl; [reflexivity|].
  rewrite insert_by_created_perm. constructor; exact IH.
Qed.

Definition created_le (a b : Task) : Prop := created_at a <= created_at b.

Lemma insert_by_created_sorted t l :
  Sorted created_le l -> Sorted created_le (insert_by_created t l).
Proof.
  induction 1 as [|x l Hl IH Hd]; simpl; [repeat constructor|].
  destruct (created_at t <=? created_at x) eqn:E.
  - constructor; [constructor; auto|]. constructor. apply Nat.leb_le; exact E.
  - apply Nat.leb_gt in E. constructor; [exact IH|].
    destruct l as [|y l]; simpl.
    + constructor. unfold created_le; lia.
    + inversion Hd; subst. destruct (created_at t <=? created_at y);
        constructor; unfold created_le in *; lia.
Qed.

Lemma sort_by_created_sorted l : Sorted created_le (sort_by_created l).
Proof. induction l; simpl; [constructor|]. apply insert_by_created_sorted; assumption. Qed.

Lemma firstn_sorted {A} (R : A -> A -> Prop) n l : Sorted R l -> Sorted R (firstn n l).
Proof.
  revert l; induction n as [|n IH]; intros l H; [constructor|].
  destruct H as [|a l Hl Hd]; simpl; [constructor|].
  constructor; [apply IH; exact Hl|].
  destruct l as [|b l]; [destruct n; constructor|].
  inversion Hd; subst. destruct n; simpl; constructor; assumption.
Qed.

Lemma strongly_sorted_app {A} (R : A -> A -> Prop) l1 l2 :
  StronglySorted R (l1 ++ l2) -> forall x y, In x l1 -> In y l2 -> R x y.
Proof.
  induction l1 as [|a l1 IH]; simpl; intros H x y Hx Hy; [contradiction|].
  inversion H as [|? ? Hs Hf]; subst.
  destruct Hx as [<-|Hx].
  - rewrite Forall_forall in Hf. apply Hf, in_or_app; auto.
  - apply IH; auto.
Qed.

Lemma select_inbox_props env ts :
  let f := select_inbox env ts in
  List.length f <= 20
  /\ Forall (fun t => owner_id t = OWNER_ID env /\ status t = inbox) f
  /\ Sorted created_le f
  /\ (forall t, In t ts -> owner_id t = OWNER_ID env -> status t = inbox -> ~ In t f ->
       Forall (fun x => created_at x <= created_at t) f).
Proof.
  intros f. unfold f, select_inbox.
  set (L := sort_by_created (filter (inbox_filter env) ts)).
  assert (HL : forall x, In x L <-> In x ts /\ inbox_filter env x = true).
  { intros x. unfold L. rewrite <- filter_In. split; apply Permutation_in;
      [|symmetry]; apply sort_by_created_perm. }
  assert (HS : Sorted created_le L) by apply sort_by_created_sorted.
  split; [apply firstn_le_length|].
  split.
  { apply Forall_forall. intros x Hx.
    assert (HxL : In x L) by (rewrite <- (firstn_skipn 20 L); apply in_or_app; auto).
    apply HL in HxL as [_ Hx'].  clear Hx; rename Hx' into Hx.
    unfold inbox_filter in Hx. apply andb_true_iff in Hx as [H1 H2].
    apply Nat.eqb_eq in H1. split; [exact H1|]. destruct (status x); easy. }
  split; [apply firstn_sorted; exact HS|].
  intros t Ht Ho Hs Hn. apply Forall_forall. intros x Hx.
  assert (HtL : In t L).
  { apply HL. split; [exact Ht|]. unfold inbox_filter. rewrite Ho, Hs, Nat.eqb_refl. reflexivity. }
  rewrite <- (firstn_skipn 20 L) in HtL. apply in_app_or in HtL as [HtL|HtL]; [contradiction|].
  apply (strongly_sorted_app created_le (firstn 20 L) (skipn 20 L)); auto.
  rewrite firstn_skipn. apply Sorted_StronglySorted; [|exact HS].
  intros a b c; unfold created_le; lia.
Qed.

Lemma main_processed env s ps s' :
  main env s = (Ok ps, s') ->
  Forall2 (fun t p => p_id p = task_id t
                      /\ p_status p = (if needsNico t then needs_nico else triage))
    (select_inbox env (tasks s)) ps.
Proof.
  intros H. destruct (main_ok_inv env s ps s' H) as [F1 F2].
  rewrite (main_unfold env s F1 F2) in H.
  eapply process_list_ok; [|exact H].
  destruct (select_inbox_props env (tasks s)) as (_ & Hf & _).
  eapply Forall_impl; [|exact Hf]. intros t [_ Ht]; exact Ht.
Qed.

(** C6 *)
(** Claim C6: the status [main] decides for each item it processes is
    [needs_nico] (the spec's [needs_clarification]) when [needsNico] holds
    and [triage] otherwise; and over a whole run, with or without failures,
    every task row either keeps its row unchanged or makes the single step
    from [inbox] to [triage] or [needs_nico]. *)
Theorem triage_single_transition : forall (env : Env) (s : Store),
  Forall2 task_step (tasks s) (tasks (snd (main env s)))
  /\ (forall ps s', main env s = (Ok ps, s') ->
      Forall2 (fun t p => p_id p = task_id t
                          /\ p_status p = (if needsNico t then needs_nico else triage))
        (select_inbox env (tasks s)) ps).
Proof.
  intros env s. split.
  - destruct (main env s) as [r s'] eqn:H. simpl.
    apply (main_extends env s r s' H).
  - apply main_processed.
Qed.

(** C8 *)
(** Claim C8: a successful run fetched at most 20 tasks, all of the
    configured owner and in [inbox], in ascending [created_at] order, no
    eligible task left out is older than a fetched one, and the items are
    processed (and reported) in that order. *)
Theorem fetch_batch_fifo : forall (env : Env) (s : Store) (ps : list Processed) (s' : Store),
  main env s = (Ok ps, s') ->
  let f := select_inbox env (tasks s) in
  List.length f <= 20
  /\ Forall (fun t => owner_id t = OWNER_ID env /\ status t = inbox) f
  /\ Sorted (fun a b => created_at a <= created_at b) f
  /\ (forall t, In t (tasks s) -> owner_id t = OWNER_ID env -> status t = inbox ->
        ~ In t f -> Forall (fun x => created_at x <= created_at t) f)
  /\ map p_id ps = map task_id f.
Proof.
  intros env s ps s' H f.
  destruct (select_inbox_props env (tasks s)) as (L & Hf & HS & Hold).
  split; [exact L|]. split; [exact Hf|]. split; [exact HS|]. split; [exact Hold|].
  pose proof (main_processed env s ps s' H) as P. fold f in P.
  clear -P. induction P as [|t p f ps [Hid _] _ IH]; simpl; [reflexivity|].
  rewrite Hid, IH; reflexivity.
Qed.

(* ------------------------------------------------------------------ *)
(** ** Inserted subtask rows *)

Lemma nth_error_mapi_from {A B} (f : nat -> A -> B) k l i :
  nth_error (mapi_from f k l) i = option_map (f (k + i)) (nth_error l i).
Proof.
  revert k i; induction l as [|x l IH]; intros k i; destruct i; simpl; auto.
  - rewrite Nat.add_0_r; reflexivity.
  - rewrite IH. f_equal. f_equal. lia.
Qed.

Lemma length_mapi_from {A B} (f : nat -> A -> B) k l :
  List.length (mapi_from f k l) = List.length l.
Proof. revert k; induction l; intros k; simpl; auto. Qed.

Lemma In_mapi_from {A B} (f : nat -> A -> B) k l y :
  In y (mapi_from f k l) -> exists i x, In x l /\ y = f i x.
Proof.
  revert k; induction l as [|x l IH]; intros k H; simpl in H; [contradiction|].
  destruct H as [<-|H]; [exists k, x; simpl; auto|].
  destruct (IH _ H) as (i & z & Hz & ->). exists i, z; simpl; auto.
Qed.

Lemma plan_pushes_dod b p : In p (plan_pushes b) -> definition_of_done p <> "".
Proof.
  unfold plan_pushes, push_if.
  destruct (String.eqb b "Research"), (String.eqb b "Skool"), (String.eqb b "Dev"),
    (String.eqb b "Ops"); simpl; intros H;
    repeat (destruct H as [<-|H]; [unfold step_clarify, step_research, step_skool,
      step_dev, step_ops, step_validate; simpl; discriminate|]); contradiction.
Qed.

Lemma buildSubtasks_dod t p : In p (buildSubtasks t) -> definition_of_done p <> "".
Proof.
  unfold buildSubtasks. intros H. apply (plan_pushes_dod (inferAgentBucket (title t) (description t))).
  rewrite <- (firstn_skipn 7 (plan_pushes _)). apply in_or_app; auto.
Qed.

Lemma make_rows_good env roster j t :
  good_batch (make_rows env roster j t (buildSubtasks t)).
Proof.
  exists t. split; [apply length_mapi_from|].
  intros i r H. unfold make_rows in H. rewrite nth_error_mapi_from in H.
  destruct (nth_error (buildSubtasks t) i) as [p|] eqn:E; [|discriminate H].
  injection H as <-. unfold make_row; simpl.
  split; [reflexivity|]. split; [reflexivity|].
  split; [apply (buildSubtasks_dod t), nth_error_In with i; exact E|].
  split; [reflexivity|]. exists p; auto.
Qed.

Lemma plans_added_refl s : plans_added s s.
Proof. exists []; simpl; rewrite app_nil_r; auto. Qed.

Lemma plans_added_same s s' : subtasks s' = subtasks s -> plans_added s s'.
Proof. intros E. exists []; simpl; rewrite app_nil_r; auto. Qed.

Lemma plans_added_trans a b c : plans_added a b -> plans_added b c -> plans_added a c.
Proof.
  intros (bs1 & E1 & F1) (bs2 & E2 & F2). exists (bs1 ++ bs2)%list.
  rewrite E2, E1, concat_app, app_assoc. split; [reflexivity|].
  apply Forall_app; auto.
Qed.

(** C10 *)
(** Claim C10: the subtask rows a run inserts come in batches, one per
    decomposed item; in the batch of item [t], row number [i] is built from
    step [i] of [buildSubtasks t]: status [in_progress], [sort_order = i],
    [metadata.triage_bucket] the step's bucket, the step's title, and the
    step's non-empty definition of done. *)
Theorem inserted_subtasks_shape : forall (env : Env) (s : Store),
  exists bs, subtasks (snd (main env s)) = (subtasks s ++ List.concat bs)%list
  /\ Forall (fun b => exists t,
       List.length b = List.length (buildSubtasks t) /\
       forall i r, nth_error b i = Some r ->
         st_status r = in_progress /\ st_sort r = i /\ st_dod r <> ""
         /\ st_task r = task_id t
         /\ exists p, nth_error (buildSubtasks t) i = Some p
            /\ st_title r = step_title p /\ st_dod r = definition_of_done p
            /\ st_bucket r = step_bucket p) bs.
Proof.
  intros env s. destruct (main env s) as [r s'] eqn:H. simpl.
  apply (main_respects env plans_added (fun _ => True)) in H.
  - exact H.
  - apply plans_added_refl.
  - apply plans_added_trans.
  - intros s0; apply plans_added_same; reflexivity.
  - intros t c s0 _ _; apply plans_added_same; reflexivity.
  - intros t a s0 _ _; apply plans_added_same; reflexivity.
  - intros t st s0 _ _; apply plans_added_same; reflexivity.
  - intros roster j t s0 _ _. exists [make_rows env roster j t (buildSubtasks t)].
    simpl; rewrite app_nil_r. split; [reflexivity|].
    constructor; [apply make_rows_good|constructor].
  - apply Forall_forall; auto.
Qed.

(* ------------------------------------------------------------------ *)
(** ** A run over items that already have subtasks *)

Lemma select_inbox_in env ts t :
  In t (select_inbox env ts) -> In t ts /\ inbox_filter env t = true.
Proof.
  unfold select_inbox. intros H. rewrite <- filter_In.
  apply Permutation_in with (sort_by_created (filter (inbox_filter env) ts));
    [apply sort_by_created_perm|].
  rewrite <- (firstn_skipn 20 (sort_by_created _)). apply in_or_app; auto.
Qed.

Lemma filter_none {A} (f : A -> bool) l :
  (forall x, In x l -> f x = false) -> filter f l = [].
Proof.
  induction l as [|x l IH]; intros H; simpl; [reflexivity|].
  rewrite H by (left; reflexivity). apply IH. intros y Hy; apply H; right; exact Hy.
Qed.

Lemma has_subtask_app env X s s' d :
  subtasks s' = (subtasks s ++ d)%list -> has_subtask env X s -> has_subtask env X s'.
Proof.
  intros E (r & Hr & Ho & Ht). exists r. rewrite E.
  split; [apply in_or_app; auto|auto].
Qed.

Lemma kd_same env s s' : subtasks s' = subtasks s -> keeps_decomposed env s s'.
Proof.
  intros E. split; [exists []; rewrite app_nil_r; auto|].
  intros X _; unfold subtask_count; rewrite E; reflexivity.
Qed.

Lemma kd_trans env a b c :
  keeps_decomposed env a b -> keeps_decomposed env b c -> keeps_decomposed env a c.
Proof.
  intros [[d1 E1] K1] [[d2 E2] K2].
  split; [exists (d1 ++ d2)%list; rewrite E2, E1, app_assoc; reflexivity|].
  intros X HX. rewrite K2 by (eapply has_subtask_app; eauto). apply K1; exact HX.
Qed.

Lemma make_rows_task env roster j t r :
  In r (make_rows env roster j t (buildSubtasks t)) -> st_task r = task_id t.
Proof. unfold make_rows. intros H. apply In_mapi_from in H as (i & p & _ & ->). reflexivity. Qed.

Lemma kd_insert env roster j t s :
  filter (fun r => (st_owner r =? OWNER_ID env) && (st_task r =? task_id t)) (subtasks s) = [] ->
  keeps_decomposed env s (add_subtasks (make_rows env roster j t (buildSubtasks t)) s).
Proof.
  intros F. split; [eexists; reflexivity|].
  intros X (r & Hr & Ho & Hx).
  assert (HX : X <> task_id t).
  { intros E; rewrite E in Hx.
    assert (Hin : In r (filter (fun r => (st_owner r =? OWNER_ID env) && (st_task r =? task_id t))
                       (subtasks s))).
    { apply filter_In. split; [exact Hr|]. rewrite Ho, Hx, !Nat.eqb_refl. reflexivity. }
    rewrite F in Hin; contradiction. }
  unfold subtask_count; simpl. rewrite filter_app, length_app.
  rewrite (filter_none _ (make_rows env roster j t (buildSubtasks t))); [simpl; lia|].
  intros y Hy. apply Nat.eqb_neq. rewrite (make_rows_task env roster j t y Hy). congruence.
Qed.

Lemma count_comment_other X c s :
  c_task c <> X -> comment_count X (add_comment c s) = comment_count X s.
Proof.
  intros H. unfold comment_count; simpl. rewrite filter_app; simpl.
  replace (c_task c =? X) with false by (symmetry; apply Nat.eqb_neq; exact H).
  rewrite app_nil_r; reflexivity.
Qed.

Lemma count_activity_other X a s :
  a_entity a <> X -> activity_count X (add_activity a s) = activity_count X s.
Proof.
  intros H. unfold activity_count; simpl. rewrite filter_app; simpl.
  replace (a_entity a =? X) with false by (symmetry; apply Nat.eqb_neq; exact H).
  rewrite app_nil_r; reflexivity.
Qed.

(** C4 *)
(** Claim C4 (amended): a run over a store in which item [X] already has a
    subtask of the owner leaves the subtask count of [X] unchanged; a run
    appends a comment or an activity entry about [X] only if it fetched
    [X] from [inbox]; in particular, if [X] has no [inbox] row of the owner
    (for instance because the first run moved it to [triage] or
    [needs_nico]), the run appends no comment and no activity entry about
    [X], whether or not [X] has subtasks. *)
Theorem second_run_keeps_subtasks : forall (env : Env) (s : Store) (X : nat),
  (has_subtask env X s -> subtask_count X (snd (main env s)) = subtask_count X s)
  /\ (~ In X (map task_id (select_inbox env (tasks s))) ->
      comment_count X (snd (main env s)) = comment_count X s
      /\ activity_count X (snd (main env s)) = activity_count X s)
  /\ ((forall t, In t (tasks s) -> task_id t = X -> owner_id t = OWNER_ID env ->
        status t <> inbox) ->
      comment_count X (snd (main env s)) = comment_count X s
      /\ activity_count X (snd (main env s)) = activity_count X s).
Proof.
  intros env s X. destruct (main env s) as [r s'] eqn:H. simpl.
  assert (NF : ~ In X (map task_id (select_inbox env (tasks s))) ->
      comment_count X s' = comment_count X s /\ activity_count X s' = activity_count X s).
  { intros Hno.
    apply (main_respects env
             (fun a b => comment_count X b = comment_count X a
                         /\ activity_count X b = activity_count X a)
             (fun t => task_id t <> X)) with (s := s) (r := r).
    + intros s0; split; reflexivity.
    + intros a b c [E1 E2] [E3 E4]; split; congruence.
    + intros s0; split; reflexivity.
    + intros t c s0 Ht Hc; split; [apply count_comment_other; congruence|reflexivity].
    + intros t a s0 Ht Ha; split; [reflexivity|apply count_activity_other; congruence].
    + intros t st s0 _ _; split; reflexivity.
    + intros roster j t s0 _ _; split; reflexivity.
    + apply Forall_forall. intros t Ht E. apply Hno. rewrite <- E. apply in_map. exact Ht.
    + exact H. }
  split; [|split; [exact NF|]].
  - intros HX.
    assert (K : keeps_decomposed env s s').
    { apply (main_respects env (keeps_decomposed env) (fun _ => True) ) with (s := s) (r := r).
      - intros s0; apply kd_same; reflexivity.
      - apply kd_trans.
      - intros s0; apply kd_same; reflexivity.
      - intros t c s0 _ _; apply kd_same; reflexivity.
      - intros t a s0 _ _; apply kd_same; reflexivity.
      - intros t st s0 _ _; apply kd_same; reflexivity.
      - intros roster j t s0 _ F; apply kd_insert; exact F.
      - apply Forall_forall; auto.
      - exact H. }
    destruct K as [_ K]. apply K; exact HX.
  - intros Hno. apply NF. intros Hin.
    apply in_map_iff in Hin as (t & E & Ht).
    apply select_inbox_in in Ht as [Ht Hf].
    unfold inbox_filter in Hf. apply andb_true_iff in Hf as [Ho Hs].
    apply Nat.eqb_eq in Ho.
    apply (Hno t Ht E Ho). destruct (status t); easy.
Qed.

(* ------------------------------------------------------------------ *)
(** ** Assignee resolution *)

Lemma map_get_set k k' v m :
  map_get k (map_set k' v m) = if String.eqb k k' then Some v else map_get k m.
Proof.
  induction m as [|[k1 v1] m IH]; simpl; [reflexivity|].
  destruct (String.eqb k' k1) eqn:E1; simpl.
  - apply String.eqb_eq in E1; subst k1.
    destruct (String.eqb k k'); reflexivity.
  - rewrite IH. destruct (String.eqb k k1) eqn:E2, (String.eqb k k') eqn:E3; try reflexivity.
    apply String.eqb_eq in E2, E3; subst. rewrite String.eqb_refl in E1; discriminate.
Qed.

Lemma find_app_opt {A} (p : A -> bool) l1 l2 :
  find p (l1 ++ l2) = match find p l1 with Some x => Some x | None => find p l2 end.
Proof.
  induction l1 as [|x l1 IH]; simpl; [destruct (find p l2); reflexivity|].
  destruct (p x); [reflexivity|exact IH].
Qed.

Lemma map_get_build k l m0 :
  map_get k (fold_left (fun m a => map_set (roster_key a) a m) l m0)
  = match find (fun a => String.eqb (roster_key a) k) (rev l) with
    | Some a => Some a
    | None => map_get k m0
    end.
Proof.
  revert m0; induction l as [|a l IH]; intros m0; simpl; [reflexivity|].
  rewrite IH, find_app_opt, map_get_set. simpl.
  rewrite (String.eqb_sym (roster_key a) k).
  destruct (find _ (rev l)); [reflexivity|].
  destruct (String.eqb k (roster_key a)); reflexivity.
Qed.

(** C7 *)
(** Claim C7: [pickId] looks the lowercased bucket name up among the active
    agents of the owner by their lowercased name (the last such agent wins,
    as with [Map.set]); when none matches it returns the id of the agent
    named [jarvis] (in any case), and when there is none either it returns
    [None]. It is a total function, so it never raises; buckets equal up to
    case resolve to the same agent. *)
Theorem pickId_resolution : forall (env : Env) (s : Store) (bucket : option string),
  pickId (active_roster env s) (jarvis_id (active_roster env s)) bucket
  = match find (fun a => String.eqb (roster_key a)
                           (JS.toLowerCase (match bucket with Some b => b | None => "" end)))
              (rev (fst (op_select_agents env s))) with
    | Some a => Some (agent_id a)
    | None =>
        match find (fun a => String.eqb (roster_key a) "jarvis")
                   (rev (fst (op_select_agents env s))) with
        | Some a => Some (agent_id a)
        | None => None
        end
    end
  /\ (forall b1 b2, JS.toLowerCase b1 = JS.toLowerCase b2 ->
      pickId (active_roster env s) (jarvis_id (active_roster env s)) (Some b1)
      = pickId (active_roster env s) (jarvis_id (active_roster env s)) (Some b2)).
Proof.
  intros env s bucket. split.
  - unfold pickId, jarvis_id, active_roster, build_roster.
    rewrite !map_get_build. simpl.
    destruct (find _ (rev _)); [reflexivity|].
    destruct (find _ (rev _)); reflexivity.
  - intros b1 b2 E. unfold pickId. simpl. rewrite E. reflexivity.
Qed.

(* ------------------------------------------------------------------ *)
(** ** The sample backlog *)

Lemma demo_after1_has_subtask : has_subtask demo_env 1 demo_after1.
Proof.
  unfold has_subtask. vm_compute.
  eexists. split; [left; reflexivity|split; reflexivity].
Qed.

(** Witness for C4: on the second run over the sample backlog, item 1
    (decomposed and moved to [triage] by the first run) keeps its three
    subtasks, and neither item 1 nor item 2 (moved to [needs_nico], without
    subtasks) gets a new comment or activity entry. *)
Lemma second_run_keeps_subtasks_witness :
  has_subtask demo_env 1 demo_after1
  /\ subtask_count 1 demo_after2 = subtask_count 1 demo_after1
  /\ comment_count 1 demo_after2 = comment_count 1 demo_after1
  /\ activity_count 1 demo_after2 = activity_count 1 demo_after1
  /\ subtask_count 2 demo_after1 = 0
  /\ comment_count 2 demo_after2 = comment_count 2 demo_after1
  /\ activity_count 2 demo_after2 = activity_count 2 demo_after1.
Proof.
  destruct (second_run_keeps_subtasks demo_env demo_after1 1) as (A & _ & B).
  destruct (second_run_keeps_subtasks demo_env demo_after1 2) as (_ & C & _).
  split; [exact demo_after1_has_subtask|]. split; [exact (A demo_after1_has_subtask)|].
  split; [apply B; intros t Ht; vm_compute in Ht;
          destruct Ht as [<-|[<-|[]]]; vm_compute; intros; discriminate|].
  split; [apply B; intros t Ht; vm_compute in Ht;
          destruct Ht as [<-|[<-|[]]]; vm_compute; intros; discriminate|].
  split; [vm_compute; reflexivity|].
  assert (N : ~ In 2 (map task_id (select_inbox demo_env (tasks demo_after1))))
    by (vm_compute; intros []).
  exact (C N).
Defined.

(** Counterexample to C4 as stated: on the second run over the sample
    backlog, item 1 (which the first run decomposed and moved to [triage])
    is not fetched, so the run succeeds without appending a summary
    comment or an activity entry for it. *)
Lemma second_run_appends_no_comment :
  has_subtask demo_env 1 demo_after1
  /\ fst (main demo_env demo_after1) = Ok []
  /\ comment_count 1 demo_after1 = 1
  /\ comment_count 1 demo_after2 = 1
  /\ activity_count 1 demo_after2 = activity_count 1 demo_after1.
Proof.
  split; [exact demo_after1_has_subtask|].
  vm_compute. repeat split.
Qed.

(** Witness for C5: item 1 of the sample backlog, processed on its own. *)
Lemma process_task_conditional_write_witness :
  status demo_task1 = inbox
  /\ no_fault demo_env (calls demo_store) (calls demo_store + 7)
  /\ exists out s',
       process_task demo_env (active_roster demo_env demo_store)
         (jarvis_id (active_roster demo_env demo_store)) demo_task1 demo_store
       = (Ok (Some out), s')
       /\ exists pre, activity s' =
            (pre ++ [agent_activity demo_env (jarvis_id (active_roster demo_env demo_store))
                       demo_task1 "move_status" (data_move inbox (p_status out))])%list.
Proof.
  assert (Hs : status demo_task1 = inbox) by reflexivity.
  assert (Hn : no_fault demo_env (calls demo_store) (calls demo_store + 7))
    by (intros n _; reflexivity).
  split; [exact Hs|]. split; [exact Hn|].
  destruct (process_task_conditional_write demo_env (active_roster demo_env demo_store)
              (jarvis_id (active_roster demo_env demo_store)) demo_task1 demo_store Hs Hn)
    as (out & s' & H & _ & _ & A).
  exists out, s'. split; [exact H|exact A].
Defined.

(** Witness for C6: the first run over the sample backlog. *)
Lemma triage_single_transition_witness :
  main demo_env demo_store = (Ok demo_processed, demo_after1)
  /\ Forall2 (fun t p => p_id p = task_id t
                         /\ p_status p = (if needsNico t then needs_nico else triage))
       (select_inbox demo_env (tasks demo_store)) demo_processed.
Proof.
  assert (E : main demo_env demo_store = (Ok demo_processed, demo_after1))
    by (vm_compute; reflexivity).
  split; [exact E|].
  exact (proj2 (triage_single_transition demo_env demo_store) _ _ E).
Defined.

(** Witness for C8: the older item 2 is fetched and processed first. *)
Lemma fetch_batch_fifo_witness :
  main demo_env demo_store = (Ok demo_processed, demo_after1)
  /\ map p_id demo_processed = map task_id (select_inbox demo_env (tasks demo_store))
  /\ Sorted (fun a b => created_at a <= created_at b) (select_inbox demo_env (tasks demo_store)).
Proof.
  assert (E : main demo_env demo_store = (Ok demo_processed, demo_after1))
    by (vm_compute; reflexivity).
  destruct (fetch_batch_fifo demo_env demo_store demo_processed demo_after1 E)
    as (_ & _ & S & _ & P).
  split; [exact E|]. split; [exact P|exact S].
Defined.

(** Witness for C9: store call 9 fails while item 1 is processed; the run
    ends in that error and leaves item 2's writes in place; an empty backlog
    exits zero. *)
Lemma run_fail_fast_no_rollback_witness :
  calls demo_store <= 9 < calls (snd (main demo_failing_env demo_store))
  /\ fault demo_failing_env 9 = Some "boom"
  /\ (exists e, fst (main demo_failing_env demo_store) = Err e)
  /\ main demo_failing_env demo_store = (Err "boom", snd (main demo_failing_env demo_store))
  /\ run demo_failing_env demo_store
     = mkOutcome 1 [] ["ERROR triage: boom"] (snd (main demo_failing_env demo_store))
  /\ store_extends demo_store (snd (main demo_failing_env demo_store))
  /\ run demo_env demo_empty_store = mkOutcome 0 [empty_message] [] (tick (tick demo_empty_store)).
Proof.
  destruct (run_fail_fast_no_rollback demo_failing_env demo_store) as (A & B & _).
  assert (Hn : calls demo_store <= 9 < calls (snd (main demo_failing_env demo_store)))
    by (vm_compute; lia).
  assert (Hf : fault demo_failing_env 9 = Some "boom") by reflexivity.
  split; [exact Hn|]. split; [exact Hf|].
  split; [apply (A 9 Hn); rewrite Hf; discriminate|].
  assert (E : main demo_failing_env demo_store
              = (Err "boom", snd (main demo_failing_env demo_store)))
    by (vm_compute; reflexivity).
  destruct (B _ _ E) as (R & _ & _ & _ & X & _).
  split; [exact E|]. split; [exact R|]. split; [exact X|].
  apply (proj2 (proj2 (run_fail_fast_no_rollback demo_env demo_empty_store)));
    vm_compute; reflexivity.
Defined.

(** Witness for C7: the buckets "DEV" and "dev" resolve alike. *)
Lemma pickId_resolution_witness :
  JS.toLowerCase "DEV" = JS.toLowerCase "dev"
  /\ pickId (active_roster demo_env demo_store) (jarvis_id (active_roster demo_env demo_store))
       (Some "DEV")
     = pickId (active_roster demo_env demo_store) (jarvis_id (active_roster demo_env demo_store))
         (Some "dev").
Proof.
  assert (E : JS.toLowerCase "DEV" = JS.toLowerCase "dev") by reflexivity.
  split; [exact E|].
  exact (proj2 (pickId_resolution demo_env demo_store None) _ _ E).
Defined.

(* ================================================================== *)
(** * Further properties of the triage cron *)

Lemma mustEnv_first_some penv names v :
  mustEnv_first penv names = Some v <->
  exists pre name post, names = (pre ++ name :: post)%list
    /\ Forall (env_unset penv) pre /\ penv name = Some v /\ v <> "".
Proof.
  split.
  - induction names as [|n ns IH]; simpl; [discriminate|].
    destruct (penv n) as [x|] eqn:P.
    + destruct (String.eqb x "") eqn:X.
      * intros E. destruct (IH E) as (pre & name & post & -> & F & Hn & Hv).
        exists (n :: pre), name, post. split; [reflexivity|]. split; [|auto].
        constructor; [right; apply String.eqb_eq in X; congruence|exact F].
      * intros H; injection H as <-. exists [], n, ns. repeat split; auto.
        apply String.eqb_neq; exact X.
    + intros E. destruct (IH E) as (pre & name & post & -> & F & Hn & Hv).
      exists (n :: pre), name, post. split; [reflexivity|]. split; [|auto].
      constructor; [left; exact P|exact F].
  - intros (pre & name & post & -> & F & Hn & Hv).
    induction F as [|n pre Hu F IH]; simpl.
    + rewrite Hn. apply String.eqb_neq in Hv. rewrite Hv. reflexivity.
    + destruct Hu as [Hu|Hu]; rewrite Hu; simpl; exact IH.
Qed.

Lemma mustEnv_first_none penv names :
  mustEnv_first penv names = None -> Forall (env_unset penv) names.
Proof.
  induction names as [|n ns IH]; simpl; intros E; constructor.
  - destruct (penv n) as [x|] eqn:P; [|left; exact P].
    destruct (String.eqb x "") eqn:X; [right; apply String.eqb_eq in X; congruence|discriminate].
  - apply IH. destruct (penv n) as [x|]; [destruct (String.eqb x "")|]; auto; discriminate.
Qed.

(** Extra X1: [mustEnv] returns the value of the first listed variable
    that is set to a non-empty string, skipping the unset or empty ones
    before it; when none is, it throws ["Missing env: "] followed by all
    the names joined with [" | "]. *)
Theorem mustEnv_spec : forall penv names v e,
  (mustEnv penv names = Ok v <->
     exists pre name post, names = (pre ++ name :: post)%list
       /\ Forall (env_unset penv) pre /\ penv name = Some v /\ v <> "")
  /\ (mustEnv penv names = Err e ->
        e = "Missing env: " ++ String.concat " | " names /\ Forall (env_unset penv) names).
Proof.
  intros penv names v e. unfold mustEnv. rewrite <- mustEnv_first_some. split.
  - destruct (mustEnv_first penv names); split; intros H; try discriminate;
      injection H as ->; reflexivity.
  - destruct (mustEnv_first penv names) eqn:E; [discriminate|].
    intros H; injection H as <-. split; [reflexivity|]. apply mustEnv_first_none; exact E.
Qed.

Lemma inferAgentBucket_cases ti de :
  let b := inferAgentBucket ti de in
  b = "Skool" \/ b = "Ops" \/ b = "Dev" \/ b = "Research" \/ b = "Jarvis".
Proof.
  unfold inferAgentBucket.
  repeat match goal with |- context [if ?c then _ else _] => destruct c end; auto.
Qed.

(** Extra X3: the plan has 2 steps when the bucket is "Jarvis" and 3
    otherwise, the middle one in the inferred bucket; so the cap of 7 never
    cuts anything. *)
Theorem buildSubtasks_length : forall task : Task,
  let b := inferAgentBucket (title task) (description task) in
  buildSubtasks task = plan_pushes b
  /\ (if String.eqb b "Jarvis"
      then List.length (buildSubtasks task) = 2
      else List.length (buildSubtasks task) = 3
           /\ option_map step_bucket (nth_error (buildSubtasks task) 1) = Some b).
Proof.
  intros task b. unfold buildSubtasks. fold b.
  destruct (inferAgentBucket_cases (title task) (description task))
    as [E|[E|[E|[E|E]]]]; fold b in E; rewrite E; repeat split.
Qed.

Lemma substring0_length n s : String.length (substring 0 n s) = Nat.min n (String.length s).
Proof.
  revert s; induction n as [|n IH]; intros s; destruct s; simpl; auto.
Qed.

Lemma substring0_prefix n s : prefix (substring 0 n s) s = true.
Proof.
  revert s; induction n as [|n IH]; intros s; destruct s as [|c s]; simpl; auto;
  destruct (ascii_dec c c); [apply IH|contradiction].
Qed.

(** Extra X4: the summary comment opens with a line ["Resumen: "] followed
    by the placeholder when the trimmed description is empty, and otherwise
    by the first [min 240 n] code units of the trimmed description. *)
Theorem commentBody_summary : forall (t : Task) (needs : bool),
  let d := normalizeText (description t) in
  exists resumen rest,
    commentBody t needs = "Resumen: " ++ resumen ++ newline ++ rest
    /\ (d = "" -> resumen = "Sin descripción (se requiere aclarar).")
    /\ (d <> "" -> prefix resumen d = true
                   /\ String.length resumen = Nat.min 240 (String.length d)).
Proof.
  intros t needs d.
  exists (if String.eqb d "" then "Sin descripción (se requiere aclarar)." else substring 0 240 d).
  eexists. split.
  - unfold commentBody. fold d. cbv zeta. simpl String.concat at 1.
    reflexivity.
  - split.
    + intros ->. reflexivity.
    + intros Hd. apply String.eqb_neq in Hd. rewrite Hd.
      split; [apply substring0_prefix|apply substring0_length].
Qed.

Lemma bind_call_ok_inv {A B} env (op : Store -> A * Store) (k : A -> M B) s b s' :
  bind (store_call env op) k s = (Ok b, s') ->
  fault env (calls s) = None /\ (let (a, s2) := op (tick s) in k a s2) = (Ok b, s').
Proof.
  unfold bind, store_call. destruct (fault env (calls s)); [discriminate|].
  destruct (op (tick s)); auto.
Qed.

Lemma firstn1_existsb {A} (f : A -> bool) l :
  (0 <? List.length (firstn 1 (filter f l))) = existsb f l.
Proof.
  induction l as [|x l IH]; simpl; [reflexivity|].
  destruct (f x); [reflexivity|exact IH].
Qed.

Lemma match_length_self {A} (l : list A) :
  match List.length l with 0 => List.length l | S n => S n end = List.length l.
Proof. destruct (List.length l); reflexivity. Qed.

Ltac ok_step H :=
  first
    [ rewrite bind_assoc_s in H
    | rewrite bind_ret_s in H
    | apply bind_call_ok_inv in H as [? H] ];
  cbv beta iota zeta delta [op_select_subtasks op_insert_subtasks op_insert_comment
    op_insert_activity op_update_status insertActivity] in H.

Lemma process_task_effects : forall env roster j t s p s',
  process_task env roster j t s = (Ok (Some p), s') ->
  let has := existsb (fun r => (st_owner r =? OWNER_ID env) && (st_task r =? task_id t))
               (subtasks s) in
  let decompose := negb has && negb (needsNico t) in
  let rows := if decompose then make_rows env roster j t (buildSubtasks t) else [] in
  status t = inbox
  /\ p = mkProcessed (task_id t) (List.length rows) (target_status t) has
  /\ subtasks s' = (subtasks s ++ rows)%list
  /\ comments s' = (comments s ++ [mkCommentRow (OWNER_ID env) (task_id t) "agent" j
                                     (commentBody t (needsNico t))])%list
  /\ activity s' =
       (activity s
        ++ (if decompose
            then [agent_activity env j t "create_subtasks" (data_created (List.length rows))]
            else [])
        ++ [agent_activity env j t "add_comment" (data_kind "triage_summary");
            agent_activity env j t "move_status" (data_move inbox (target_status t))])%list
  /\ tasks s' = update_status env (task_id t) (target_status t) (tasks s)
  /\ agents s' = agents s
  /\ calls s' = calls s + (if decompose then 7 else 5).
Proof.
  intros env roster j t s p s' H has decompose rows.
  unfold process_task in H.
  destruct (Status_eqb (status t) inbox) eqn:Hin; cbn [negb] in H;
    [|unfold ret in H; discriminate H].
  assert (Hst : status t = inbox) by (destruct (status t); easy).
  ok_step H. rewrite firstn1_existsb in H. cbn [subtasks tick] in H. fold has in H.
  fold decompose in H.
  unfold rows; clear rows. unfold target_status.
  destruct decompose eqn:C.
  - repeat ok_step H. rewrite match_length_self in H.
    unfold ret in H. injection H as <- <-. cbn.
    rewrite <- !app_assoc. repeat split; auto; lia.
  - repeat ok_step H. unfold ret in H. injection H as <- <-. cbn.
    rewrite <- !app_assoc. repeat split; try exact Hst; try (rewrite app_nil_r; reflexivity); lia.
Qed.

Lemma process_list_items env roster j ts s ps s' :
  Forall (fun t => status t = inbox) ts ->
  process_list env roster j ts s = (Ok ps, s') ->
  Forall2 (fun t p => p_id p = task_id t /\ p_status p = target_status t
            /\ p_subtasks_created p
               = (if p_skipped_existing p || needsNico t then 0
                  else List.length (buildSubtasks t))) ts ps
  /\ calls s + 5 * List.length ts <= calls s' <= calls s + 7 * List.length ts.
Proof.
  revert s ps s'; induction ts as [|t ts IH]; intros s ps s' Hin H; simpl in H.
  - injection H as <- <-. simpl. split; [constructor|lia].
  - inversion Hin as [|? ? Ht Hts]; subst.
    apply bind_ok_inv in H as (r & s1 & Hr & H).
    apply bind_ok_inv in H as (rest & s2 & Hrest & H).
    injection H as <- <-.
    destruct (process_task_ok _ _ _ _ _ _ _ Ht Hr) as (p & -> & _).
    destruct (process_task_effects _ _ _ _ _ _ _ Hr) as (_ & -> & _ & _ & _ & _ & _ & C).
    destruct (IH _ _ _ Hts Hrest) as [F L].
    split.
    + constructor; [|exact F]. cbn [p_id p_status p_subtasks_created p_skipped_existing].
      split; [reflexivity|]. split; [reflexivity|].
      destruct (existsb _ _), (needsNico t); cbn [orb andb negb]; try reflexivity.
      unfold make_rows. apply length_mapi_from.
    + simpl List.length. destruct (negb _ && negb _); lia.
Qed.

(** Extra X8: in a successful run every fetched item gets one report entry,
    in fetch order, whose subtask count is 0 when subtasks already existed
    or the item is vague and the plan length otherwise; the run exits 0,
    prints the header with the number of fetched items followed by one line
    per item (or the empty-inbox message), and makes between [2 + 5n] and
    [2 + 7n] store calls for [n] fetched items. *)
Theorem run_report : forall (env : Env) (s : Store) (ps : list Processed) (s' : Store),
  main env s = (Ok ps, s') ->
  let f := select_inbox env (tasks s) in
  Forall2 (fun t p => p_id p = task_id t
            /\ p_subtasks_created p
               = (if p_skipped_existing p || needsNico t then 0
                  else List.length (buildSubtasks t))) f ps
  /\ run env s = mkOutcome 0
       (match f with
        | [] => [empty_message]
        | _ => ("Procesado: " ++ nat_to_string (List.length f) ++ " tasks")
               :: map summary_line ps
        end) [] s'
  /\ calls s + 2 + 5 * List.length f <= calls s' <= calls s + 2 + 7 * List.length f.
Proof.
  intros env s ps s' H f.
  destruct (main_ok_inv env s ps s' H) as [F1 F2].
  assert (Hin : Forall (fun t => status t = inbox) f).
  { destruct (select_inbox_props env (tasks s)) as (_ & Hf & _).
    eapply Forall_impl; [|exact Hf]. intros t [_ Ht]; exact Ht. }
  pose proof H as H0. rewrite (main_unfold env s F1 F2) in H0. fold f in H0.
  destruct (process_list_items _ _ _ _ _ _ _ Hin H0) as [P L].
  split; [eapply Forall2_impl; [|exact P]; intros t p (A & _ & B); auto|].
  split; [|simpl in L; lia].
  unfold run. rewrite H. rewrite (Forall2_length P).
  destruct f as [|t f']; inversion P; subst; reflexivity.
Qed.

Section ProcessAt.
Variable env : Env.
Variable roster : Roster.
Variable j : option nat.
Variable R : Store -> Store -> Prop.
Hypothesis R_refl : forall s, R s s.
Hypothesis R_trans : forall a b c, R a b -> R b c -> R a c.
Hypothesis R_tick : forall s, R s (tick s).
Hypothesis R_comment : forall t s,
  R s (add_comment (mkCommentRow (OWNER_ID env) (task_id t) "agent" j
                      (commentBody t (needsNico t))) s).
Hypothesis R_activity : forall t act d s, R s (add_activity (agent_activity env j t act d) s).
Hypothesis R_update : forall t s,
  R s (with_tasks (update_status env (task_id t) (target_status t) (tasks s)) s).
Hypothesis R_insert : forall t s,
  R s (add_subtasks (make_rows env roster j t (buildSubtasks t)) s).

Lemma respects_if {A} (b : bool) (m1 m2 : M A) :
  respects R m1 -> respects R m2 -> respects R (if b then m1 else m2).
Proof. destruct b; auto. Qed.

Ltac walk_at :=
  repeat first
    [ assumption
    | apply respects_bind
    | apply respects_ret
    | apply respects_store_call
    | apply respects_if
    | match goal with
      | |- forall s a s', _ = (a, s') -> R s s' =>
          let E := fresh "E" in
          intros ? ? ? E;
          cbv beta delta [op_select_subtasks op_insert_subtasks op_insert_comment
            op_insert_activity op_update_status] in E; injection E as _ <-;
          first [ apply R_refl | apply R_comment | apply R_activity
                | apply R_update | apply R_insert ]
      end
    | match goal with |- forall _, _ => intro end ].

Lemma process_task_respects_at t : respects R (process_task env roster j t).
Proof. unfold process_task, insertActivity. cbv zeta. walk_at. Qed.

Lemma process_list_respects_at ts : respects R (process_list env roster j ts).
Proof.
  induction ts as [|t ts IH]; simpl; [apply respects_ret; auto|].
  apply respects_bind; auto; [apply process_task_respects_at|intros r].
  apply respects_bind; auto; intros; apply respects_ret; auto.
Qed.

End ProcessAt.

Lemma main_respects_at env (R : Store -> Store -> Prop) s0 :
  (forall s, R s s) -> (forall a b c, R a b -> R b c -> R a c) -> (forall s, R s (tick s)) ->
  (forall t s, R s (add_comment (mkCommentRow (OWNER_ID env) (task_id t) "agent"
                                   (jarvis_id (active_roster env s0))
                                   (commentBody t (needsNico t))) s)) ->
  (forall t act d s,
     R s (add_activity (agent_activity env (jarvis_id (active_roster env s0)) t act d) s)) ->
  (forall t s, R s (with_tasks (update_status env (task_id t) (target_status t) (tasks s)) s)) ->
  (forall t s, R s (add_subtasks (make_rows env (active_roster env s0)
                                    (jarvis_id (active_roster env s0)) t (buildSubtasks t)) s)) ->
  forall r s', main env s0 = (r, s') -> R s0 s'.
Proof.
  intros HR HT Htick Hc Ha Hu Hi r s' H.
  unfold main, getAgentRoster, bind at 1 2, store_call at 1 in H.
  destruct (fault env (calls s0)); [injection H as _ <-; auto|].
  cbv beta iota zeta delta [op_select_agents ret] in H.
  apply HT with (tick s0); [auto|].
  unfold bind at 1, store_call at 1 in H.
  destruct (fault env (calls (tick s0))); [injection H as _ <-; auto|].
  cbv beta iota zeta delta [op_select_inbox] in H.
  apply HT with (tick (tick s0)); [auto|].
  exact (process_list_respects_at env (active_roster env s0) (jarvis_id (active_roster env s0))
           R HR HT Htick Hc Ha Hu Hi _ _ _ _ H).
Qed.

Lemma map_get_active env s k a :
  map_get k (active_roster env s) = Some a ->
  In a (agents s) /\ agent_owner a = OWNER_ID env /\ is_active a = true.
Proof.
  unfold active_roster, build_roster. rewrite map_get_build. simpl map_get.
  destruct (find _ _) as [b|] eqn:F; [|discriminate].
  intros E; injection E as <-.
  apply find_some in F as [F _]. apply in_rev in F. simpl in F.
  apply filter_In in F as [F1 F2]. apply andb_true_iff in F2 as [F2 F3].
  apply Nat.eqb_eq in F2. auto.
Qed.

Lemma jarvis_ref env s : agent_ref env (agents s) (jarvis_id (active_roster env s)).
Proof.
  unfold jarvis_id. destruct (map_get "jarvis" (active_roster env s)) as [a|] eqn:E;
    simpl; [|exact I].
  apply map_get_active in E as (E1 & E2 & E3). exists a; auto.
Qed.

Lemma pickId_ref env s b :
  agent_ref env (agents s) (pickId (active_roster env s) (jarvis_id (active_roster env s)) b).
Proof.
  unfold pickId. destruct (map_get _ (active_roster env s)) as [a|] eqn:E; [|apply jarvis_ref].
  apply map_get_active in E as (E1 & E2 & E3). exists a; auto.
Qed.

Lemma Forall2_other_refl (O : nat) l :
  Forall2 (fun r r' => owner_id r <> O -> r' = r) l l.
Proof. induction l; constructor; auto. Qed.

Lemma Forall2_other_trans (O : nat) l1 l2 l3 :
  Forall2 (fun r r' => owner_id r <> O -> r' = r) l1 l2 ->
  Forall2 (fun r r' => owner_id r <> O -> r' = r) l2 l3 ->
  Forall2 (fun r r' => owner_id r <> O -> r' = r) l1 l3.
Proof.
  intros H12; revert l3; induction H12 as [|a b l1 l2 Hab _ IH]; intros l3 H23;
    inversion H23 as [|? c ? l3' Hbc H23']; subst; constructor; auto.
  intros Ha. specialize (Hab Ha); subst b. apply Hbc; exact Ha.
Qed.

Lemma update_status_other env tid st ts :
  Forall2 (fun r r' => owner_id r <> OWNER_ID env -> r' = r) ts (update_status env tid st ts).
Proof.
  induction ts as [|r ts IH]; simpl; constructor; auto.
  intros Hne. unfold cas_match.
  destruct (owner_id r =? OWNER_ID env) eqn:E; [apply Nat.eqb_eq in E; contradiction|].
  reflexivity.
Qed.

Ltac scoped_same :=
  split; [apply Forall2_other_refl|];
  (split; [exists []; rewrite app_nil_r; split; [reflexivity|constructor]|]);
  (split; [exists []; rewrite app_nil_r; split; [reflexivity|constructor]|]);
  (split; [exists []; rewrite app_nil_r; split; [reflexivity|constructor]|]);
  reflexivity.

Lemma scoped_trans env A0 a b c : scoped env A0 a b -> scoped env A0 b c -> scoped env A0 a c.
Proof.
  intros (T1 & (d1 & E1 & F1) & (e1 & G1 & H1) & (f1 & K1 & L1) & A1)
         (T2 & (d2 & E2 & F2) & (e2 & G2 & H2) & (f2 & K2 & L2) & A2).
  split; [eapply Forall2_other_trans; eauto|].
  split; [exists (d1 ++ d2)%list; rewrite E2, E1, app_assoc; split; [reflexivity|apply Forall_app; auto]|].
  split; [exists (e1 ++ e2)%list; rewrite G2, G1, app_assoc; split; [reflexivity|apply Forall_app; auto]|].
  split; [exists (f1 ++ f2)%list; rewrite K2, K1, app_assoc; split; [reflexivity|apply Forall_app; auto]|].
  congruence.
Qed.

Lemma main_scoped env s : scoped env (agents s) s (snd (main env s)).
Proof.
  destruct (main env s) as [r s'] eqn:H. simpl.
  refine (main_respects_at env (scoped env (agents s)) s _ _ _ _ _ _ _ r s' H).
  - intros s0; scoped_same.
  - apply scoped_trans.
  - intros s0; scoped_same.
  - intros t s0. split; [apply Forall2_other_refl|].
    split; [exists []; rewrite app_nil_r; split; [reflexivity|constructor]|].
    split; [exists [mkCommentRow (OWNER_ID env) (task_id t) "agent"
                     (jarvis_id (active_roster env s)) (commentBody t (needsNico t))];
            split; [reflexivity|]; constructor; [split; [reflexivity|apply jarvis_ref]|constructor]|].
    split; [exists []; rewrite app_nil_r; split; [reflexivity|constructor]|].
    reflexivity.
  - intros t act d s0. split; [apply Forall2_other_refl|].
    split; [exists []; rewrite app_nil_r; split; [reflexivity|constructor]|].
    split; [exists []; rewrite app_nil_r; split; [reflexivity|constructor]|].
    split; [exists [agent_activity env (jarvis_id (active_roster env s)) t act d];
            split; [reflexivity|]; constructor; [split; [reflexivity|apply jarvis_ref]|constructor]|].
    reflexivity.
  - intros t s0. split; [apply update_status_other|].
    split; [exists []; rewrite app_nil_r; split; [reflexivity|constructor]|].
    split; [exists []; rewrite app_nil_r; split; [reflexivity|constructor]|].
    split; [exists []; rewrite app_nil_r; split; [reflexivity|constructor]|].
    reflexivity.
  - intros t s0. split; [apply Forall2_other_refl|].
    split.
    + eexists; split; [reflexivity|]. apply Forall_forall. intros row Hr.
      unfold make_rows in Hr. apply In_mapi_from in Hr as (i & p & _ & ->).
      split; [reflexivity|apply pickId_ref].
    + split; [exists []; rewrite app_nil_r; split; [reflexivity|constructor]|].
      split; [exists []; rewrite app_nil_r; split; [reflexivity|constructor]|].
      reflexivity.
Qed.

(** Extra X5: when processing an inbox item succeeds, it reports the item's
    id, its target status, whether the owner already had a subtask for it,
    and the number of subtask rows it inserted; it inserts the plan's rows
    only when no subtask existed and the item is not vague, appends exactly
    one summary comment and the [create_subtasks] (only when rows were
    inserted), [add_comment] and [move_status] activity entries, applies
    the conditional status write, leaves the agents alone, and makes 7
    store calls when it decomposed the item and 5 otherwise. *)
Theorem process_task_writes : forall env roster j t s p s',
  process_task env roster j t s = (Ok (Some p), s') ->
  let has := existsb (fun r => (st_owner r =? OWNER_ID env) && (st_task r =? task_id t))
               (subtasks s) in
  let decompose := negb has && negb (needsNico t) in
  let rows := if decompose then make_rows env roster j t (buildSubtasks t) else [] in
  status t = inbox
  /\ p = mkProcessed (task_id t) (List.length rows) (target_status t) has
  /\ subtasks s' = (subtasks s ++ rows)%list
  /\ comments s' = (comments s ++ [mkCommentRow (OWNER_ID env) (task_id t) "agent" j
                                     (commentBody t (needsNico t))])%list
  /\ activity s' =
       (activity s
        ++ (if decompose
            then [agent_activity env j t "create_subtasks" (data_created (List.length rows))]
            else [])
        ++ [agent_activity env j t "add_comment" (data_kind "triage_summary");
            agent_activity env j t "move_status" (data_move inbox (target_status t))])%list
  /\ tasks s' = update_status env (task_id t) (target_status t) (tasks s)
  /\ agents s' = agents s
  /\ calls s' = calls s + (if decompose then 7 else 5).
Proof. exact process_task_effects. Qed.

(** Extra X6: a run, successful or not, never changes a task row of another
    owner, and every subtask, comment and activity row it appends carries
    the configured owner id. *)
Theorem run_owner_scoped : forall (env : Env) (s : Store),
  let s' := snd (main env s) in
  Forall2 (fun r r' => owner_id r <> OWNER_ID env -> r' = r) (tasks s) (tasks s')
  /\ (exists d, subtasks s' = (subtasks s ++ d)%list
        /\ Forall (fun r => st_owner r = OWNER_ID env) d)
  /\ (exists d, comments s' = (comments s ++ d)%list
        /\ Forall (fun c => c_owner c = OWNER_ID env) d)
  /\ (exists d, activity s' = (activity s ++ d)%list
        /\ Forall (fun a => a_owner a = OWNER_ID env) d).
Proof.
  intros env s s'.
  destruct (main_scoped env s) as (T & (d1 & E1 & F1) & (d2 & E2 & F2) & (d3 & E3 & F3) & _).
  split; [exact T|].
  split; [exists d1; split; [exact E1|eapply Forall_impl; [|exact F1]; intros x [H _]; exact H]|].
  split; [exists d2; split; [exact E2|eapply Forall_impl; [|exact F2]; intros x [H _]; exact H]|].
  exists d3; split; [exact E3|eapply Forall_impl; [|exact F3]; intros x [H _]; exact H].
Qed.

(** Extra X7: every agent id a run writes (subtask assignee, comment author,
    activity actor) is [null] or the id of an agent that was, in the store
    the run started from, an active agent of the configured owner. *)
Theorem run_agent_refs : forall (env : Env) (s : Store),
  let s' := snd (main env s) in
  (exists d, subtasks s' = (subtasks s ++ d)%list
     /\ Forall (fun r => agent_ref env (agents s) (st_assignee r)) d)
  /\ (exists d, comments s' = (comments s ++ d)%list
        /\ Forall (fun c => agent_ref env (agents s) (c_author c)) d)
  /\ (exists d, activity s' = (activity s ++ d)%list
        /\ Forall (fun a => agent_ref env (agents s) (a_actor a)) d).
Proof.
  intros env s s'.
  destruct (main_scoped env s) as (_ & (d1 & E1 & F1) & (d2 & E2 & F2) & (d3 & E3 & F3) & _).
  split; [exists d1; split; [exact E1|eapply Forall_impl; [|exact F1]; intros x [_ H]; exact H]|].
  split; [exists d2; split; [exact E2|eapply Forall_impl; [|exact F2]; intros x [_ H]; exact H]|].
  exists d3; split; [exact E3|eapply Forall_impl; [|exact F3]; intros x [_ H]; exact H].
Qed.


(** Witness for X1: with [SUPABASE_URL] empty the URL falls back to
    [NEXT_PUBLIC_SUPABASE_URL]; an unset owner id is reported by name. *)
Lemma mustEnv_spec_witness :
  mustEnv demo_penv ["SUPABASE_URL"; "NEXT_PUBLIC_SUPABASE_URL"] = Ok "https://db.example"
  /\ mustEnv demo_penv ["CENTRO_OWNER_ID"] = Err "Missing env: CENTRO_OWNER_ID"
  /\ Forall (env_unset demo_penv) ["CENTRO_OWNER_ID"].
Proof.
  assert (E1 : mustEnv demo_penv ["SUPABASE_URL"; "NEXT_PUBLIC_SUPABASE_URL"]
               = Ok "https://db.example") by reflexivity.
  assert (E2 : mustEnv demo_penv ["CENTRO_OWNER_ID"] = Err "Missing env: CENTRO_OWNER_ID")
    by reflexivity.
  split; [exact E1|]. split; [exact E2|].
  exact (proj2 (proj2 (mustEnv_spec demo_penv ["CENTRO_OWNER_ID"] "" _) E2)).
Defined.

(** Witness for X4: item 1 of the sample backlog has an empty description. *)
Lemma commentBody_summary_witness :
  exists resumen rest,
    commentBody demo_task1 false = "Resumen: " ++ resumen ++ newline ++ rest
    /\ resumen = "Sin descripción (se requiere aclarar).".
Proof.
  destruct (commentBody_summary demo_task1 false) as (r & rest & E & Hempty & _).
  exists r, rest. split; [exact E|]. apply Hempty. reflexivity.
Defined.

(** Witness for X5: item 1 of the sample backlog, processed on its own. *)
Lemma process_task_writes_witness :
  process_task demo_env (active_roster demo_env demo_store)
    (jarvis_id (active_roster demo_env demo_store)) demo_task1 demo_store
  = (Ok (Some (mkProcessed 1 3 triage false)), demo_task1_after)
  /\ calls demo_task1_after = calls demo_store + 7.
Proof.
  assert (E : process_task demo_env (active_roster demo_env demo_store)
                (jarvis_id (active_roster demo_env demo_store)) demo_task1 demo_store
              = (Ok (Some (mkProcessed 1 3 triage false)), demo_task1_after))
    by (vm_compute; reflexivity).
  split; [exact E|].
  destruct (process_task_writes _ _ _ _ _ _ _ E) as (_ & _ & _ & _ & _ & _ & _ & C).
  exact C.
Defined.

(** Witness for X8: the first run over the sample backlog. *)
Lemma run_report_witness :
  main demo_env demo_store = (Ok demo_processed, demo_after1)
  /\ run demo_env demo_store
     = mkOutcome 0 (("Procesado: " ++ nat_to_string 2 ++ " tasks")
                    :: map summary_line demo_processed) [] demo_after1.
Proof.
  assert (E : main demo_env demo_store = (Ok demo_processed, demo_after1))
    by (vm_compute; reflexivity).
  split; [exact E|].
  destruct (run_report demo_env demo_store demo_processed demo_after1 E) as (_ & R & _).
  exact R.
Defined.
